(** * nova: the Perseus point-based POMDP planner and the belief update

    A shallow embedding of [src/pomdp/algorithms/pomdp_perseus_cpu.cpp] and of
    [src/pomdp/pomdp_expand_cpu.cpp]: the belief kernels and the random
    expansion.

    Conventions of the embedding.
    - [float] is modelled by the rationals [Q]: every statement below is a
      statement about the program in exact arithmetic.  Division by zero,
      which yields NaN or an infinity in IEEE arithmetic, yields [0] in [Q].
    - [unsigned int] is a [Z] in [0, 2^32); products and sums computed in
      [unsigned int] are wrapped by [u32].  [int] cells of [S] and [Z] are
      plain [Z] (a negative cell ends a sparse row).
    - an array is a list; a pointer field is [option (list _)], [None] being
      [nullptr].  Reading outside an array yields the default cell and a
      store outside an array is dropped: both are undefined in C++.
    - values the program text does not determine (the result of [rand()],
      the content of uninitialised storage) are explicit arguments. *)

From Stdlib Require Import ZArith QArith Qround List Lia Bool FinFun.
Import ListNotations.

Open Scope Z_scope.

Module Nova.

(** ** Machine integers and arrays *)

Definition u32 (x : Z) : Z := x mod 4294967296.

(** [for (unsigned int i = 0; i < k; i++)] visits [range k] in order. *)
Definition range (k : Z) : list Z := map Z.of_nat (seq 0 (Z.to_nat k)).

(** [a[i]] *)
Definition rd {A : Type} (d : A) (a : list A) (i : Z) : A :=
  nth (Z.to_nat i) a d.

Fixpoint upd {A : Type} (k : nat) (v : A) (a : list A) : list A :=
  match a, k with
  | [], _ => []
  | _ :: t, O => v :: t
  | h :: t, S k' => h :: upd k' v t
  end.

(** [a[i] = v] *)
Definition wr {A : Type} (a : list A) (i : Z) (v : A) : list A :=
  upd (Z.to_nat i) v a.

(** [memcpy(&dst[doff], &src[soff], count * sizeof(cell))] *)
Definition memcpy {A : Type} (d : A) (dst : list A) (doff : Z)
    (src : list A) (soff : Z) (count : Z) : list A :=
  fold_left (fun acc k => wr acc (doff + k) (rd d src (soff + k)))
            (range count) dst.

Definition deref {A : Type} (p : option (list A)) : list A :=
  match p with Some a => a | None => [] end.

Definition is_null {A : Type} (p : option A) : bool :=
  match p with Some _ => false | None => true end.

Definition qrd := rd (A := Q) 0%Q.
Definition zrd := rd (A := Z) 0.

(** ** Constants of the C library *)

(** [FLT_MIN] of <cfloat>: the smallest positive normal [float], 2^-126. *)
Definition FLT_MIN : Q := 1 # (2 ^ 126).

(** [RAND_MAX] of <cstdlib> (glibc). *)
Definition RAND_MAX : Z := 2147483647.

(** ** Status codes *)

(** Modelled from the spec: [error_codes.h] is not among the sources.  The
    codes are the taxonomy of section 7 of the specification, the first four
    under the names the two translation units return them by; the sources
    name no code for a degenerate belief or an unsupported feature. *)
Inductive Status : Type :=
| NOVA_SUCCESS
| NOVA_CONVERGED
| NOVA_ERROR_INVALID_DATA
| NOVA_ERROR_OUT_OF_MEMORY
| NOVA_ERROR_DEGENERATE_BELIEF
| NOVA_ERROR_UNSUPPORTED.

Definition Status_eqb (x y : Status) : bool :=
  match x, y with
  | NOVA_SUCCESS, NOVA_SUCCESS
  | NOVA_CONVERGED, NOVA_CONVERGED
  | NOVA_ERROR_INVALID_DATA, NOVA_ERROR_INVALID_DATA
  | NOVA_ERROR_OUT_OF_MEMORY, NOVA_ERROR_OUT_OF_MEMORY
  | NOVA_ERROR_DEGENERATE_BELIEF, NOVA_ERROR_DEGENERATE_BELIEF
  | NOVA_ERROR_UNSUPPORTED, NOVA_ERROR_UNSUPPORTED => true
  | _, _ => false
  end.

(** ** The POMDP object: model and Perseus scratch state *)

(** Modelled from the spec: [pomdp.h] is not among the sources.  The fields
    are those of section 3 of the specification, under the names the code
    reads them by; the arrays [S], [T], [O], [R], [Z] and [B] are [arrS],
    ..., [arrB] here. *)
Record POMDP : Type := mkPOMDP {
  n : Z; ns : Z; m : Z; z : Z; r : Z; rz : Z;
  gamma : Q;
  horizon : Z;
  arrS : option (list Z);
  arrT : option (list Q);
  arrO : option (list Q);
  arrR : option (list Q);
  arrZ : option (list Z);
  arrB : option (list Q);
  currentHorizon : Z;
  Gamma : option (list Q);
  GammaPrime : option (list Q);
  pi : option (list Z);
  piPrime : option (list Z);
  rGamma : Z;
  rGammaPrime : Z;
  BTilde : option (list Z);
  rTilde : Z
}.

(** Modelled from the spec: the header of [POMDPAlphaVectors] is not among
    the sources.  The fields are [n], [m], [r], [Gamma] and [pi], which
    [pomdp_perseus_get_policy_cpu] fills. *)
Record POMDPAlphaVectors : Type := mkPolicy {
  pol_n : Z;
  pol_m : Z;
  pol_r : Z;
  pol_Gamma : list Q;
  pol_pi : list Z
}.

(** ** Belief kernels of pomdp_expand_cpu.cpp *)

Section Expand.

Variable pomdp : POMDP.

(** [pomdp->S[s * m * ns + a * ns + i]] and its probability. *)
Definition S_at (s a i : Z) : Z :=
  zrd (deref (arrS pomdp)) (u32 (s * m pomdp * ns pomdp + a * ns pomdp + i)).

Definition T_at (s a i : Z) : Q :=
  qrd (deref (arrT pomdp)) (u32 (s * m pomdp * ns pomdp + a * ns pomdp + i)).

(** [pomdp->O[a * n * z + sp * z + o]] *)
Definition O_at (a sp o : Z) : Q :=
  qrd (deref (arrO pomdp)) (u32 (a * n pomdp * z pomdp + sp * z pomdp + o)).

(** The inner loop of the belief update, lines 41-48: it stops at the first
    negative successor. *)
Fixpoint belief_update_row (b : list Q) (a s : Z) (ks : list Z) (bp : list Q)
  : list Q :=
  match ks with
  | [] => bp
  | i :: ks' =>
      let sp := S_at s a i in
      if sp <? 0 then bp
      else belief_update_row b a s ks'
             (wr bp sp (qrd bp sp + T_at s a i * qrd b s)%Q)
  end.

Definition pomdp_expand_belief_update_cpu (b : list Q) (a o : Z) (bp : list Q)
  : Status * list Q :=
  let bp := fold_left (fun bp sp => wr bp sp 0%Q) (range (n pomdp)) bp in
  let bp := fold_left (fun bp s => belief_update_row b a s (range (ns pomdp)) bp)
                      (range (n pomdp)) bp in
  let '(bp, normalizingConstant) :=
    fold_left (fun st sp =>
                 let bp := wr (fst st) sp (qrd (fst st) sp * O_at a sp o)%Q in
                 (bp, (snd st + qrd bp sp)%Q))
              (range (n pomdp)) (bp, 0%Q) in
  let bp := fold_left (fun bp sp => wr bp sp (qrd bp sp / normalizingConstant)%Q)
                      (range (n pomdp)) bp in
  (NOVA_SUCCESS, bp).

(** The inner loop of the observation probability, lines 74-82. *)
Fixpoint probability_observation_row (a o s : Z) (ks : list Z) (val : Q) : Q :=
  match ks with
  | [] => val
  | i :: ks' =>
      let sp := S_at s a i in
      if sp <? 0 then val
      else probability_observation_row a o s ks'
             (val + T_at s a i * O_at a sp o)%Q
  end.

Definition pomdp_expand_probability_observation (b : list Q) (a o : Z)
  : Status * Q :=
  (NOVA_SUCCESS,
   fold_left (fun prObs s =>
                (prObs + probability_observation_row a o s (range (ns pomdp)) 0
                         * qrd b s)%Q)
             (range (n pomdp)) 0%Q).

End Expand.

(** [sum_cells k bp] is the sum of [bp[0]], ..., [bp[k-1]]. *)
Definition sum_cells (k : Z) (bp : list Q) : Q :=
  fold_left (fun acc sp => (acc + qrd bp sp)%Q) (range k) 0%Q.

(** ** Perseus kernels of pomdp_perseus_cpu.cpp

    The C kernels receive the fields of the model one by one; here they
    receive the object that holds them. *)

(** [x < y] on [float]. *)
Definition Qltb (x y : Q) : bool :=
  (Qnum x * QDen y <? Qnum y * QDen x)%Z.

(** What a call of [pomdp_perseus_update_cpu] obtains from outside the
    program text: the result of [rand()], the content of the uninitialised
    local [bestj] and the content of storage fresh from [new float[]]. *)
Record Indet : Type := mkIndet {
  rand_value : Z;
  stack_bestj : Z;
  heap_float : list Q
}.

(** [new float[k]]: [k] cells holding whatever [content] holds. *)
Definition new_float (k : Z) (content : list Q) : list Q :=
  map (qrd content) (range k).

(** [new unsigned int[k]] *)
Definition new_uint (k : Z) : list Z := map (fun _ => 0) (range k).

Section Kernels.

Variable pomdp : POMDP.

Definition Z_at (bIndex j : Z) : Z :=
  zrd (deref (arrZ pomdp)) (u32 (bIndex * rz pomdp + j)).

Definition B_at (bIndex j : Z) : Q :=
  qrd (deref (arrB pomdp)) (u32 (bIndex * rz pomdp + j)).

Definition R_at (s a : Z) : Q :=
  qrd (deref (arrR pomdp)) (u32 (s * m pomdp + a)).

(** Lines 41-48.  [alpha] is the pointer [&arr[off]]. *)
Fixpoint b_dot_alpha_loop (bIndex : Z) (arr : list Q) (off : Z)
    (js : list Z) (bDotAlpha : Q) : Q :=
  match js with
  | [] => bDotAlpha
  | j :: js' =>
      let s := Z_at bIndex j in
      if s <? 0 then bDotAlpha
      else b_dot_alpha_loop bIndex arr off js'
             (bDotAlpha + B_at bIndex j * qrd arr (off + s))%Q
  end.

Definition pomdp_perseus_compute_b_dot_alpha_cpu (bIndex : Z)
    (arr : list Q) (off : Z) : Q :=
  b_dot_alpha_loop bIndex arr off (range (rz pomdp)) 0%Q.

(** Lines 52-67.  [alphaPrimeIndex] is the value the caller's variable
    holds on entry; the result is ([*Vnb], [*alphaPrimeIndex]). *)
Definition pomdp_perseus_compute_Vb_cpu (bIndex : Z) (Gamma : list Q)
    (rGamma : Z) (alphaPrimeIndex : Z) : Q * Z :=
  fold_left
    (fun st i =>
       let bDotAlpha :=
         pomdp_perseus_compute_b_dot_alpha_cpu bIndex Gamma (u32 (i * n pomdp)) in
       if Qltb (fst st) bDotAlpha then (bDotAlpha, i) else st)
    (range rGamma) (FLT_MIN, alphaPrimeIndex).

(** Lines 98-106 and 123-131: the back-projection of vector [j] at [s]. *)
Fixpoint best_alpha_Vtk (Gamma : list Q) (a o j s : Z) (ls : list Z) (Vtk : Q)
  : Q :=
  match ls with
  | [] => Vtk
  | l :: ls' =>
      let sp := S_at pomdp s a l in
      if sp <? 0 then Vtk
      else best_alpha_Vtk Gamma a o j s ls'
             (Vtk + O_at pomdp a sp o * T_at pomdp s a l
                    * qrd Gamma (u32 (j * n pomdp + sp)))%Q
  end.

(** Lines 88-109. *)
Fixpoint best_alpha_value (bIndex : Z) (Gamma : list Q) (a o j : Z)
    (ks : list Z) (value : Q) : Q :=
  match ks with
  | [] => value
  | k :: ks' =>
      let s := Z_at bIndex k in
      if s <? 0 then value
      else
        let Vtk :=
          (best_alpha_Vtk Gamma a o j s (range (ns pomdp)) 0 * gamma pomdp)%Q in
        best_alpha_value bIndex Gamma a o j ks' (value + Vtk * B_at bIndex k)%Q
  end.

(** Lines 83-116: the reduction over the vectors of [Gamma]; the state is
    ([bestj], [bestValue]). *)
Definition best_alpha_argmax (bIndex : Z) (Gamma : list Q) (rGamma a o : Z)
    (bestj : Z) : Z * Q :=
  fold_left
    (fun st j =>
       let value := best_alpha_value bIndex Gamma a o j (range (rz pomdp)) 0 in
       if Qltb (snd st) value then (j, value) else st)
    (range rGamma) (bestj, FLT_MIN).

(** Lines 70-136.  [bestj] is declared outside the loop over observations and
    never initialised: it enters with the value [bestj0]. *)
Definition pomdp_perseus_update_compute_best_alpha_cpu (bIndex : Z)
    (Gamma : list Q) (rGamma a : Z) (bestj0 : Z) (alpha : list Q) : list Q :=
  snd (fold_left
         (fun st o =>
            let bestj :=
              fst (best_alpha_argmax bIndex Gamma rGamma a o (fst st)) in
            (bestj,
             fold_left
               (fun alpha s =>
                  let Vtk :=
                    (best_alpha_Vtk Gamma a o bestj s (range (ns pomdp)) 0
                     * gamma pomdp)%Q in
                  wr alpha s (qrd alpha s + Vtk)%Q)
               (range (n pomdp)) (snd st)))
         (range (z pomdp)) (bestj0, alpha)).

(** Lines 139-179.  The result is ([alphaPrime], [*aPrime]); both enter with
    the content the caller's storage holds. *)
Definition pomdp_perseus_update_step_cpu (w : Indet) (Gamma : list Q)
    (rGamma : Z) (bIndex : Z) (alphaPrime : list Q) (aPrime : Z)
  : list Q * Z :=
  let '(_, alphaPrime, aPrime, _) :=
    fold_left
      (fun st a =>
         let '(alpha, alphaPrime, aPrime, bestValue) := st in
         let alpha :=
           fold_left (fun alpha s => wr alpha s (R_at s a))
                     (range (n pomdp)) alpha in
         let alpha :=
           pomdp_perseus_update_compute_best_alpha_cpu
             bIndex Gamma rGamma a (stack_bestj w) alpha in
         let value := pomdp_perseus_compute_b_dot_alpha_cpu bIndex alpha 0 in
         if Qltb bestValue value
         then (alpha, memcpy 0%Q alphaPrime 0 alpha 0 (n pomdp), a, value)
         else (alpha, alphaPrime, aPrime, bestValue))
      (range (m pomdp))
      (new_float (n pomdp) (heap_float w), alphaPrime, aPrime, FLT_MIN) in
  (alphaPrime, aPrime).

End Kernels.

(** ** The Perseus engine *)

(** The object with its scratch fields replaced. *)
Definition set_scratch (p : POMDP) (cH : Z)
    (G GP : option (list Q)) (pi_ piP : option (list Z)) (rG rGP : Z)
    (BT : option (list Z)) (rT : Z) : POMDP :=
  mkPOMDP (n p) (ns p) (m p) (z p) (r p) (rz p) (gamma p) (horizon p)
          (arrS p) (arrT p) (arrO p) (arrR p) (arrZ p) (arrB p)
          cH G GP pi_ piP rG rGP BT rT.

(** Lines 192-228. *)
Definition pomdp_perseus_initialize_cpu (pomdp : POMDP)
    (initialGamma : option (list Q)) : Status * POMDP :=
  let cells := u32 (r pomdp * n pomdp) in
  let G := memcpy 0%Q (new_float cells []) 0 (deref initialGamma) 0 cells in
  let GP := memcpy 0%Q (new_float cells []) 0 (deref initialGamma) 0 cells in
  let '(pi_, piP) :=
    fold_left (fun st i => (wr (fst st) i 0, wr (snd st) i 0))
              (range (r pomdp)) (new_uint (r pomdp), new_uint (r pomdp)) in
  let BT := fold_left (fun BT i => wr BT i i) (range (r pomdp))
                      (new_uint (r pomdp)) in
  (NOVA_SUCCESS,
   set_scratch pomdp 0 (Some G) (Some GP) (Some pi_) (Some piP) 0 0
               (Some BT) (r pomdp)).

(** The scratch arrays [delete []] can release. *)
Inductive Scratch : Type :=
| ScratchGamma | ScratchGammaPrime | ScratchPi | ScratchPiPrime | ScratchBTilde.

(** [if (ptr != nullptr) delete [] ptr;]: the releases it performs. *)
Definition delete_if_set {A : Type} (ptr : option A) (name : Scratch)
  : list Scratch :=
  match ptr with Some _ => [name] | None => [] end.

(** Lines 281-317.  The third component lists the arrays released, in
    order. *)
Definition pomdp_perseus_uninitialize_cpu (pomdp : POMDP)
  : Status * POMDP * list Scratch :=
  (NOVA_SUCCESS,
   set_scratch pomdp 0 None None None None 0 0 None 0,
   delete_if_set (Gamma pomdp) ScratchGamma
   ++ delete_if_set (GammaPrime pomdp) ScratchGammaPrime
   ++ delete_if_set (pi pomdp) ScratchPi
   ++ delete_if_set (piPrime pomdp) ScratchPiPrime
   ++ delete_if_set (BTilde pomdp) ScratchBTilde).

(** Line 348: [(unsigned int)((float)rand() / (float)RAND_MAX * (float)rTilde)]. *)
Definition sample_bTildeIndex (rnd rTilde_ : Z) : Z :=
  Qfloor (inject_Z rnd / inject_Z RAND_MAX * inject_Z rTilde_)%Q.

(** Lines 395-410: the beliefs whose value under the destination pool is
    below their value under the source pool.  The state is ([BTilde],
    [rTilde]). *)
Definition rebuild_BTilde (pomdp : POMDP) (Gsrc : list Q) (rsrc : Z)
    (Gdst : list Q) (rdst : Z) (BT : option (list Z)) : option (list Z) * Z :=
  fold_left
    (fun st i =>
       let '(Vnb, action) := pomdp_perseus_compute_Vb_cpu pomdp i Gsrc rsrc 0 in
       let '(Vnp1b, _) := pomdp_perseus_compute_Vb_cpu pomdp i Gdst rdst action in
       if Qltb Vnp1b Vnb
       then (option_map (fun BT => wr BT (snd st) i) (fst st), u32 (snd st + 1))
       else st)
    (range (r pomdp)) (BT, 0).

(** Lines 429-431. *)
Definition reset_BTilde (pomdp : POMDP) (BT : option (list Z))
  : option (list Z) :=
  option_map (fun BT => fold_left (fun BT i => wr BT i i) (range (r pomdp)) BT)
             BT.

(** Lines 320-437. *)
Definition pomdp_perseus_update_cpu (w : Indet) (pomdp : POMDP)
  : Status * POMDP :=
  let even := currentHorizon pomdp mod 2 =? 0 in
  let Gamma_ := if even then Gamma pomdp else GammaPrime pomdp in
  let GammaPrime_ := if even then GammaPrime pomdp else Gamma pomdp in
  let rGamma_ := if even then rGamma pomdp else rGammaPrime pomdp in
  let rGammaPrime_ := if even then rGammaPrime pomdp else rGamma pomdp in
  let pi_ := if even then pi pomdp else piPrime pomdp in
  let piPrime_ := if even then piPrime pomdp else pi pomdp in
  (* the stores through the six pointers, written back into the object *)
  let put := fun cH rG GP piP rGP BT rT =>
    if even then set_scratch pomdp cH Gamma_ GP pi_ piP rG rGP BT rT
    else set_scratch pomdp cH GP Gamma_ piP pi_ rGP rG BT rT in
  let bTildeIndex := sample_bTildeIndex (rand_value w) (rTilde pomdp) in
  let bIndex := zrd (deref (BTilde pomdp)) bTildeIndex in
  let '(alpha, alphaAction) :=
    pomdp_perseus_update_step_cpu pomdp w (deref Gamma_) rGamma_ bIndex
      (new_float (n pomdp) (heap_float w)) 0 in
  let bDotAlpha := pomdp_perseus_compute_b_dot_alpha_cpu pomdp bIndex alpha 0 in
  let '(Vnb, alphaPrimeIndex) :=
    pomdp_perseus_compute_Vb_cpu pomdp bIndex (deref Gamma_) rGamma_ 0 in
  let '(GammaPrime_, piPrime_) :=
    if Qle_bool Vnb bDotAlpha
    then (option_map (fun GP => memcpy 0%Q GP (u32 (rGammaPrime_ * n pomdp))
                                       alpha 0 (n pomdp)) GammaPrime_,
          option_map (fun piP => wr piP rGammaPrime_ alphaAction) piPrime_)
    else (option_map (fun GP => memcpy 0%Q GP (u32 (rGammaPrime_ * n pomdp))
                                       (deref Gamma_)
                                       (u32 (alphaPrimeIndex * n pomdp))
                                       (n pomdp)) GammaPrime_,
          option_map (fun piP => wr piP rGammaPrime_
                                    (zrd (deref pi_) alphaPrimeIndex)) piPrime_) in
  let rGammaPrime_ := u32 (rGammaPrime_ + 1) in
  if r pomdp <? rGammaPrime_
  then (NOVA_ERROR_OUT_OF_MEMORY,
        put (currentHorizon pomdp) rGamma_ GammaPrime_ piPrime_ rGammaPrime_
            (BTilde pomdp) (rTilde pomdp))
  else
    let '(BT, rT) :=
      rebuild_BTilde pomdp (deref Gamma_) rGamma_ (deref GammaPrime_)
                     rGammaPrime_ (BTilde pomdp) in
    if rT =? 0
    then (NOVA_CONVERGED,
          put (u32 (currentHorizon pomdp + 1)) 0 GammaPrime_ piPrime_
              rGammaPrime_ (reset_BTilde pomdp BT) (r pomdp))
    else (NOVA_SUCCESS,
          put (currentHorizon pomdp) rGamma_ GammaPrime_ piPrime_ rGammaPrime_
              BT rT).

(** Lines 440-472.  The result is the status and the policy handle. *)
Definition pomdp_perseus_get_policy_cpu (pomdp : POMDP)
    (policy : option POMDPAlphaVectors) : Status * option POMDPAlphaVectors :=
  if negb (is_null policy) then (NOVA_ERROR_INVALID_DATA, policy)
  else if currentHorizon pomdp mod 2 =? 0
  then
    let cells := u32 (rGamma pomdp * n pomdp) in
    (NOVA_SUCCESS,
     Some (mkPolicy (n pomdp) (m pomdp) (rGamma pomdp)
             (memcpy 0%Q (new_float cells []) 0 (deref (Gamma pomdp)) 0 cells)
             (memcpy 0 (new_uint (rGamma pomdp)) 0 (deref (pi pomdp)) 0
                     (rGamma pomdp))))
  else
    let cells := u32 (rGammaPrime pomdp * n pomdp) in
    (NOVA_SUCCESS,
     Some (mkPolicy (n pomdp) (m pomdp) (rGammaPrime pomdp)
             (memcpy 0%Q (new_float cells []) 0 (deref (GammaPrime pomdp)) 0
                     cells)
             (memcpy 0 (new_uint (rGammaPrime pomdp)) 0 (deref (piPrime pomdp))
                     0 (rGammaPrime pomdp)))).

Definition is_error (result : Status) : bool :=
  negb (Status_eqb result NOVA_CONVERGED)
  && negb (Status_eqb result NOVA_SUCCESS).

(** Lines 259-264: one update per element of [ws], until an update reports
    convergence or an error.  [None]: [ws] ran out first. *)
Fixpoint update_until_converged (ws : list Indet) (pomdp : POMDP)
  : option (Status * POMDP * list Indet) :=
  match ws with
  | [] => None
  | w :: ws' =>
      let '(result, pomdp) := pomdp_perseus_update_cpu w pomdp in
      if is_error result then Some (result, pomdp, ws')
      else if Status_eqb result NOVA_CONVERGED then Some (result, pomdp, ws')
      else update_until_converged ws' pomdp
  end.

(** Lines 254-265.  Every round of the outer loop runs one update at
    least, so [fuel] beyond the length of [ws] is never used.  The status
    is that of the update that failed, or [NOVA_SUCCESS] once
    [currentHorizon] has reached [horizon]. *)
Fixpoint execute_horizons (fuel : nat) (ws : list Indet) (pomdp : POMDP)
  : option (Status * POMDP) :=
  match fuel with
  | O => None
  | S fuel' =>
      if currentHorizon pomdp <? horizon pomdp
      then
        match update_until_converged ws pomdp with
        | None => None
        | Some (result, pomdp, ws') =>
            if is_error result then Some (result, pomdp)
            else execute_horizons fuel' ws' pomdp
        end
      else Some (NOVA_SUCCESS, pomdp)
  end.

(** Lines 231-278.  [ws] supplies what the successive updates obtain from
    outside; the result is [None] when [ws] is too short for the run. *)
Definition pomdp_perseus_execute_cpu (ws : list Indet) (pomdp : POMDP)
    (initialGamma : option (list Q)) (policy : option POMDPAlphaVectors)
  : option (Status * POMDP * option POMDPAlphaVectors) :=
  if (n pomdp =? 0) || (ns pomdp =? 0) || (m pomdp =? 0) || (z pomdp =? 0)
     || (r pomdp =? 0) || (rz pomdp =? 0)
     || is_null (arrS pomdp) || is_null (arrT pomdp) || is_null (arrO pomdp)
     || is_null (arrR pomdp) || is_null (arrZ pomdp) || is_null (arrB pomdp)
     || Qltb (gamma pomdp) 0 || Qltb 1 (gamma pomdp) || (horizon pomdp <? 1)
     || is_null initialGamma || negb (is_null policy)
  then Some (NOVA_ERROR_INVALID_DATA, pomdp, policy)
  else
    let '(result, pomdp) := pomdp_perseus_initialize_cpu pomdp initialGamma in
    if negb (Status_eqb result NOVA_SUCCESS) then Some (result, pomdp, policy)
    else
      match execute_horizons (S (length ws)) ws pomdp with
      | None => None
      | Some (result, pomdp) =>
          if is_error result then Some (result, pomdp, policy)
          else
            let '(result, policy) := pomdp_perseus_get_policy_cpu pomdp policy in
            if negb (Status_eqb result NOVA_SUCCESS)
            then Some (result, pomdp, policy)
            else
              let '(result, pomdp, _) := pomdp_perseus_uninitialize_cpu pomdp in
              if negb (Status_eqb result NOVA_SUCCESS)
              then Some (result, pomdp, policy)
              else Some (NOVA_SUCCESS, pomdp, policy)
      end.


(** ** Random expansion of pomdp_expand_cpu.cpp *)

(** [(unsigned int)((float)rand() / (float)RAND_MAX * (float)k)], lines 117
    and 125. *)
Definition rand_index (rnd k : Z) : Z :=
  Qfloor (inject_Z rnd / inject_Z RAND_MAX * inject_Z k)%Q.

(** Lines 100-106: belief 0 of [B] spread over the states; the loop stops
    at the first negative cell of [Z]. *)
Fixpoint expand_b0_loop (pomdp : POMDP) (js : list Z) (b0 : list Q) : list Q :=
  match js with
  | [] => b0
  | i :: js' =>
      let s := Z_at pomdp 0 i in
      if s <? 0 then b0
      else expand_b0_loop pomdp js' (wr b0 s (B_at pomdp 0 i))
  end.

(** Lines 96-106. *)
Definition expand_initial_belief (pomdp : POMDP) : list Q :=
  expand_b0_loop pomdp (range (rz pomdp))
    (fold_left (fun b0 s => wr b0 s 0%Q) (range (n pomdp))
               (new_float (n pomdp) [])).

(** Lines 130-140: the first observation at which the cumulated
    probability reaches the target; 0 when none does. *)
Fixpoint expand_choose_observation (pomdp : POMDP) (b : list Q) (a : Z)
    (targetNumber : Q) (ops : list Z) (currentNumber : Q) : Z :=
  match ops with
  | [] => 0
  | op :: ops' =>
      let currentNumber :=
        (currentNumber
         + snd (pomdp_expand_probability_observation pomdp b a op))%Q in
      if Qle_bool targetNumber currentNumber then op
      else expand_choose_observation pomdp b a targetNumber ops' currentNumber
  end.

(** Lines 149-154. *)
Definition expand_count_nonzero (pomdp : POMDP) (b : list Q) : Z :=
  fold_left (fun c s => if Qltb 0 (qrd b s) then u32 (c + 1) else c)
            (range (n pomdp)) 0.

(** Lines 123-167: the steps [ts] of one trajectory.  The state is ([b],
    [i], [*maxNonZeroValues], [Bnew]) and the values [rand()] has yet to
    return; [None]: these ran out. *)
Fixpoint expand_trajectory (pomdp : POMDP) (numDesiredBeliefPoints : Z)
    (ts : list Z) (b : list Q) (i maxNonZeroValues : Z) (Bnew : list Q)
    (rands : list Z) : option (list Q * Z * Z * list Q * list Z) :=
  match ts with
  | [] => Some (b, i, maxNonZeroValues, Bnew, rands)
  | _ :: ts' =>
      match rands with
      | ra :: rt :: rands' =>
          let a := rand_index ra (m pomdp) in
          let targetNumber := (inject_Z rt / inject_Z RAND_MAX)%Q in
          let o :=
            expand_choose_observation pomdp b a targetNumber
              (range (z pomdp)) 0 in
          let bp :=
            snd (pomdp_expand_belief_update_cpu pomdp b a o
                   (new_float (n pomdp) [])) in
          let b := memcpy 0%Q b 0 bp 0 (n pomdp) in
          let numNonZeroValues := expand_count_nonzero pomdp b in
          let maxNonZeroValues :=
            if maxNonZeroValues <? numNonZeroValues then numNonZeroValues
            else maxNonZeroValues in
          let Bnew := memcpy 0%Q Bnew (u32 (i * n pomdp)) b 0 (n pomdp) in
          let i := u32 (i + 1) in
          if numDesiredBeliefPoints <=? i
          then Some (b, i, maxNonZeroValues, Bnew, rands')
          else expand_trajectory pomdp numDesiredBeliefPoints ts' b i
                 maxNonZeroValues Bnew rands'
      | _ => None
      end
  end.

(** Lines 113-168.  Every round of the loop calls [rand()] once at least,
    so [fuel] beyond the number of values is never used. *)
Fixpoint expand_trajectories (fuel : nat) (pomdp : POMDP)
    (numDesiredBeliefPoints : Z) (b0 b : list Q) (i maxNonZeroValues : Z)
    (Bnew : list Q) (rands : list Z) : option (Z * list Q) :=
  match fuel with
  | O => None
  | S fuel' =>
      if i <? numDesiredBeliefPoints
      then
        match rands with
        | [] => None
        | rh :: rands' =>
            let h := rand_index rh (u32 (horizon pomdp + 1)) in
            let b := memcpy 0%Q b 0 b0 0 (n pomdp) in
            match expand_trajectory pomdp numDesiredBeliefPoints (range h) b
                    i maxNonZeroValues Bnew rands' with
            | None => None
            | Some (b, i, maxNonZeroValues, Bnew, rands'') =>
                expand_trajectories fuel' pomdp numDesiredBeliefPoints b0 b i
                  maxNonZeroValues Bnew rands''
            end
        end
      else Some (maxNonZeroValues, Bnew)
  end.

(** Lines 91-174.  [rands] lists the values the successive calls of
    [rand()] return; the result is the status, [*maxNonZeroValues] and
    [Bnew], or [None] when [rands] is too short for the run. *)
Definition pomdp_expand_random_cpu (rands : list Z) (pomdp : POMDP)
    (numDesiredBeliefPoints : Z) (maxNonZeroValues : Z) (Bnew : list Q)
  : option (Status * Z * list Q) :=
  let b0 := expand_initial_belief pomdp in
  let b := new_float (n pomdp) [] in
  match expand_trajectories (S (length rands)) pomdp numDesiredBeliefPoints
          b0 b 0 maxNonZeroValues Bnew rands with
  | None => None
  | Some (maxNonZeroValues, Bnew) => Some (NOVA_SUCCESS, maxNonZeroValues, Bnew)
  end.

(** Lines 177-182.  The result is the status and [epsilon]. *)
Definition pomdp_expand_ger_epsilon_cpu (pomdp : POMDP) (epsilon : Q)
  : Status * Q :=
  (NOVA_SUCCESS, 0%Q).

(** Lines 185-189. *)
Definition pomdp_expand_ger_cpu (pomdp : POMDP) : Status := NOVA_SUCCESS.

(** ** Vocabulary of the statements *)

(** Whether a scratch pointer of the object is set. *)
Definition scratch_ptr_set (pomdp : POMDP) (x : Scratch) : bool :=
  match x with
  | ScratchGamma => negb (is_null (Gamma pomdp))
  | ScratchGammaPrime => negb (is_null (GammaPrime pomdp))
  | ScratchPi => negb (is_null (pi pomdp))
  | ScratchPiPrime => negb (is_null (piPrime pomdp))
  | ScratchBTilde => negb (is_null (BTilde pomdp))
  end.

(** The unnormalized successor mass of ([b], [a], [o]):
    the sum over [s'] of [O[a,s',o]] times the sum over [s] of the
    probability of reaching [s'] from [s] times [b[s]]. *)
Fixpoint transition_mass (pomdp : POMDP) (a s sp : Z) (ks : list Z) (acc : Q)
  : Q :=
  match ks with
  | [] => acc
  | i :: ks' =>
      if S_at pomdp s a i <? 0 then acc
      else transition_mass pomdp a s sp ks'
             (if S_at pomdp s a i =? sp then acc + T_at pomdp s a i else acc)%Q
  end.

Definition successor_mass (pomdp : POMDP) (b : list Q) (a o : Z) : Q :=
  fold_left
    (fun acc sp =>
       (acc + O_at pomdp a sp o
              * fold_left
                  (fun acc s =>
                     (acc + transition_mass pomdp a s sp (range (ns pomdp)) 0
                            * qrd b s)%Q)
                  (range (n pomdp)) 0)%Q)
    (range (n pomdp)) 0%Q.

(** The states of an initialized planner: what [initialize] builds and what
    any number of updates, with any outside values, make of it. *)
Inductive perseus_state : POMDP -> Prop :=
| perseus_state_init (pomdp : POMDP) (initialGamma : option (list Q)) :
    perseus_state (snd (pomdp_perseus_initialize_cpu pomdp initialGamma))
| perseus_state_update (w : Indet) (pomdp : POMDP) :
    perseus_state pomdp ->
    perseus_state (snd (pomdp_perseus_update_cpu w pomdp)).

(** The pointers an update selects by the parity of the horizon, lines
    331-345, and the stores through them. *)
Definition horizon_even (pomdp : POMDP) : bool :=
  currentHorizon pomdp mod 2 =? 0.

Definition src_Gamma_ptr (pomdp : POMDP) : option (list Q) :=
  if horizon_even pomdp then Gamma pomdp else GammaPrime pomdp.

Definition dst_Gamma_ptr (pomdp : POMDP) : option (list Q) :=
  if horizon_even pomdp then GammaPrime pomdp else Gamma pomdp.

Definition src_pi_ptr (pomdp : POMDP) : option (list Z) :=
  if horizon_even pomdp then pi pomdp else piPrime pomdp.

Definition dst_pi_ptr (pomdp : POMDP) : option (list Z) :=
  if horizon_even pomdp then piPrime pomdp else pi pomdp.

Definition src_count (pomdp : POMDP) : Z :=
  if horizon_even pomdp then rGamma pomdp else rGammaPrime pomdp.

Definition dst_count (pomdp : POMDP) : Z :=
  if horizon_even pomdp then rGammaPrime pomdp else rGamma pomdp.

Definition src_Gamma (pomdp : POMDP) : list Q := deref (src_Gamma_ptr pomdp).
Definition dst_Gamma (pomdp : POMDP) : list Q := deref (dst_Gamma_ptr pomdp).
Definition src_pi (pomdp : POMDP) : list Z := deref (src_pi_ptr pomdp).
Definition dst_pi (pomdp : POMDP) : list Z := deref (dst_pi_ptr pomdp).

Definition write_back (pomdp : POMDP) (cH rG : Z) (GP : option (list Q))
    (piP : option (list Z)) (rGP : Z) (BT : option (list Z)) (rT : Z) : POMDP :=
  if horizon_even pomdp
  then set_scratch pomdp cH (Gamma pomdp) GP (pi pomdp) piP rG rGP BT rT
  else set_scratch pomdp cH GP (GammaPrime pomdp) piP (piPrime pomdp) rGP rG
                   BT rT.

(** The intermediate values of an update. *)
Definition update_bIndex (w : Indet) (pomdp : POMDP) : Z :=
  zrd (deref (BTilde pomdp))
      (sample_bTildeIndex (rand_value w) (rTilde pomdp)).

Definition update_backup (w : Indet) (pomdp : POMDP) : list Q * Z :=
  pomdp_perseus_update_step_cpu pomdp w (src_Gamma pomdp) (src_count pomdp)
    (update_bIndex w pomdp) (new_float (n pomdp) (heap_float w)) 0.

Definition update_bDotAlpha (w : Indet) (pomdp : POMDP) : Q :=
  pomdp_perseus_compute_b_dot_alpha_cpu pomdp (update_bIndex w pomdp)
    (fst (update_backup w pomdp)) 0.

Definition update_Vb (w : Indet) (pomdp : POMDP) : Q * Z :=
  pomdp_perseus_compute_Vb_cpu pomdp (update_bIndex w pomdp)
    (src_Gamma pomdp) (src_count pomdp) 0.

Definition update_accepts (w : Indet) (pomdp : POMDP) : bool :=
  Qle_bool (fst (update_Vb w pomdp)) (update_bDotAlpha w pomdp).

(** The destination pool with the backup written into row [dst_count],
    and with row [i] of the source pool written there. *)
Definition append_backup (w : Indet) (pomdp : POMDP) (GP : list Q) : list Q :=
  memcpy 0%Q GP (u32 (dst_count pomdp * n pomdp))
         (fst (update_backup w pomdp)) 0 (n pomdp).

Definition append_source (pomdp : POMDP) (i : Z) (GP : list Q) : list Q :=
  memcpy 0%Q GP (u32 (dst_count pomdp * n pomdp))
         (src_Gamma pomdp) (u32 (i * n pomdp)) (n pomdp).

Definition update_dst_Gamma (w : Indet) (pomdp : POMDP) : option (list Q) :=
  option_map
    (if update_accepts w pomdp then append_backup w pomdp
     else append_source pomdp (snd (update_Vb w pomdp)))
    (dst_Gamma_ptr pomdp).

Definition update_dst_pi (w : Indet) (pomdp : POMDP) : option (list Z) :=
  option_map
    (fun piP =>
       wr piP (dst_count pomdp)
          (if update_accepts w pomdp then snd (update_backup w pomdp)
           else zrd (src_pi pomdp) (snd (update_Vb w pomdp))))
    (dst_pi_ptr pomdp).

Definition update_dst_count (pomdp : POMDP) : Z := u32 (dst_count pomdp + 1).

Definition update_BTilde (w : Indet) (pomdp : POMDP)
  : option (list Z) * Z :=
  rebuild_BTilde pomdp (src_Gamma pomdp) (src_count pomdp)
    (deref (update_dst_Gamma w pomdp)) (update_dst_count pomdp)
    (BTilde pomdp).

(** The pool an update wrote, read in the object as the update left it. *)
Definition written_Gamma (before after : POMDP) : option (list Q) :=
  if horizon_even before then GammaPrime after else Gamma after.

Definition written_pi (before after : POMDP) : option (list Z) :=
  if horizon_even before then piPrime after else pi after.

Definition written_count (before after : POMDP) : Z :=
  if horizon_even before then rGammaPrime after else rGamma after.

(** The shape [initialize] gives the pools, which updates keep. *)
Definition pools_shaped (pomdp : POMDP) : Prop :=
  length (deref (Gamma pomdp)) = Z.to_nat (u32 (r pomdp * n pomdp))
  /\ length (deref (GammaPrime pomdp)) = Z.to_nat (u32 (r pomdp * n pomdp))
  /\ length (deref (pi pomdp)) = Z.to_nat (r pomdp)
  /\ length (deref (piPrime pomdp)) = Z.to_nat (r pomdp)
  /\ length (deref (BTilde pomdp)) = Z.to_nat (r pomdp).

(** The pool [get_policy] reads never holds more than [r] vectors. *)
Definition policy_pool_bounded (pomdp : POMDP) : Prop :=
  pools_shaped pomdp /\ 0 <= src_count pomdp <= r pomdp.

(** The sum of [g i] over the indices [i] of [l], accumulated from the
    left as the loops of the program do. *)
Definition qsum (g : Z -> Q) (l : list Z) : Q :=
  fold_left (fun acc i => (acc + g i)%Q) l 0%Q.

(** ** The reductions with negative infinity for sentinel

    The value-at-belief reduction as the specification words it: the best
    value starts at negative infinity, written [None]. *)
Definition below (best : option Q) (x : Q) : bool :=
  match best with None => true | Some v => Qltb v x end.

Definition compute_Vb_neg_inf (pomdp : POMDP) (bIndex : Z) (Gamma : list Q)
    (rGamma : Z) (alphaPrimeIndex : Z) : option Q * Z :=
  fold_left
    (fun st i =>
       let bDotAlpha :=
         pomdp_perseus_compute_b_dot_alpha_cpu pomdp bIndex Gamma
           (u32 (i * n pomdp)) in
       if below (fst st) bDotAlpha then (Some bDotAlpha, i) else st)
    (range rGamma) (None, alphaPrimeIndex).




(** The value of vector [i] of the pool [Gamma] at belief [bIndex]. *)
Definition score (pomdp : POMDP) (bIndex : Z) (Gamma : list Q) (i : Z) : Q :=
  pomdp_perseus_compute_b_dot_alpha_cpu pomdp bIndex Gamma (u32 (i * n pomdp)).

(** [i] is the first vector of the pool that attains the maximum [v]. *)
Definition first_argmax (pomdp : POMDP) (bIndex : Z) (Gamma : list Q)
    (rGamma : Z) (v : Q) (i : Z) : Prop :=
  0 <= i < rGamma
  /\ v = score pomdp bIndex Gamma i
  /\ (forall j, 0 <= j < rGamma -> (score pomdp bIndex Gamma j <= v)%Q)
  /\ (forall j, 0 <= j < i -> (score pomdp bIndex Gamma j < v)%Q).

(** The acceptance rule as the specification words it: [Vnb] is the
    maximum over the source pool, the first maximal vector being the one
    that is kept when the backup is rejected. *)
Definition claimed_dst_Gamma (w : Indet) (pomdp : POMDP) : option (list Q) :=
  option_map
    (match compute_Vb_neg_inf pomdp (update_bIndex w pomdp) (src_Gamma pomdp)
             (src_count pomdp) 0 with
     | (Some Vnb, i) =>
         if Qle_bool Vnb (update_bDotAlpha w pomdp)
         then append_backup w pomdp else append_source pomdp i
     | (None, _) => append_backup w pomdp
     end)
    (dst_Gamma_ptr pomdp).

Definition claimed_dst_pi (w : Indet) (pomdp : POMDP) : option (list Z) :=
  option_map
    (fun piP =>
       wr piP (dst_count pomdp)
          (match compute_Vb_neg_inf pomdp (update_bIndex w pomdp)
                   (src_Gamma pomdp) (src_count pomdp) 0 with
           | (Some Vnb, i) =>
               if Qle_bool Vnb (update_bDotAlpha w pomdp)
               then snd (update_backup w pomdp) else zrd (src_pi pomdp) i
           | (None, _) => snd (update_backup w pomdp)
           end))
    (dst_pi_ptr pomdp).

(** ** Vocabulary of the BTilde invariant *)

(** Belief [i] is worth less under the destination pool than under the
    source pool: the test of line 406. *)
Definition degraded (pomdp : POMDP) (Gsrc : list Q) (rsrc : Z)
    (Gdst : list Q) (rdst : Z) (i : Z) : bool :=
  Qltb (fst (pomdp_perseus_compute_Vb_cpu pomdp i Gdst rdst 0))
       (fst (pomdp_perseus_compute_Vb_cpu pomdp i Gsrc rsrc 0)).

Definition degraded_now (pomdp : POMDP) (i : Z) : bool :=
  degraded pomdp (src_Gamma pomdp) (src_count pomdp)
           (dst_Gamma pomdp) (dst_count pomdp) i.

(** The entries [BTilde[0]], ..., [BTilde[rTilde - 1]]. *)
Definition active_beliefs (pomdp : POMDP) : list Z :=
  firstn (Z.to_nat (rTilde pomdp)) (deref (BTilde pomdp)).

(** The part of the input contract the invariant rests on: the pools fit
    the index type and the support of every belief lists states. *)
Definition model_ok (pomdp : POMDP) : Prop :=
  0 <= n pomdp /\ 1 <= r pomdp < 4294967296
  /\ r pomdp * n pomdp < 4294967296
  /\ forall b j, 0 <= b < r pomdp -> In j (range (rz pomdp)) ->
                 Z_at pomdp b j < n pomdp.

(** The invariant between updates: the pools have their shape, the
    destination pool has room for one vector per active belief, BTilde holds
    distinct beliefs of [0, r) and every degraded belief among them. *)
Definition perseus_inv (pomdp : POMDP) : Prop :=
  pools_shaped pomdp
  /\ 0 <= src_count pomdp <= r pomdp
  /\ 0 <= dst_count pomdp
  /\ 0 < rTilde pomdp
  /\ dst_count pomdp + rTilde pomdp <= r pomdp
  /\ NoDup (active_beliefs pomdp)
  /\ (forall i, In i (active_beliefs pomdp) -> 0 <= i < r pomdp)
  /\ (forall i, 0 <= i < r pomdp -> degraded_now pomdp i = true ->
                In i (active_beliefs pomdp)).

(** The destination pool as the append of an update leaves it. *)
Definition update_appended (w : Indet) (pomdp : POMDP) : list Q :=
  if update_accepts w pomdp
  then append_backup w pomdp (dst_Gamma pomdp)
  else append_source pomdp (snd (update_Vb w pomdp)) (dst_Gamma pomdp).

(** The states of an initialized planner on a well-formed model while
    every [rand()] stays below [RAND_MAX]. *)
Inductive in_range_state : POMDP -> Prop :=
| in_range_init (pomdp : POMDP) (initialGamma : option (list Q)) :
    model_ok pomdp ->
    in_range_state (snd (pomdp_perseus_initialize_cpu pomdp initialGamma))
| in_range_update (w : Indet) (pomdp : POMDP) :
    in_range_state pomdp -> 0 <= rand_value w < RAND_MAX ->
    in_range_state (snd (pomdp_perseus_update_cpu w pomdp)).

(** ** Concrete planners *)

(** A model with one state and two observations, the second of which is
    never emitted. *)
Definition silent_model : POMDP :=
  mkPOMDP 1 1 1 2 1 1 1%Q 1
    (Some [0]) (Some [1%Q]) (Some [1%Q; 0%Q]) (Some [0%Q])
    (Some [0]) (Some [1%Q])
    0 None None None None 0 0 None 0.

(** Three states, each its own belief point; both actions leave the state
    where it is; action 0 pays 2 in states 0 and 1, action 1 pays 11 in
    state 2; the discount is 0. *)
Definition three_beliefs : POMDP :=
  mkPOMDP 3 1 2 1 3 1 0%Q 2
    (Some [0; 0; 1; 1; 2; 2]) (Some [1; 1; 1; 1; 1; 1]%Q)
    (Some [1; 1; 1; 1; 1; 1]%Q) (Some [2; 0; 2; 0; 0; 11]%Q)
    (Some [0; 1; 2]) (Some [1; 1; 1]%Q)
    0 None None None None 0 0 None 0.

Definition zero_Gamma : option (list Q) :=
  Some [0; 0; 0; 0; 0; 0; 0; 0; 0]%Q.

(** [rand()] returns [rnd]; [bestj] holds 0 and fresh storage holds zeros. *)
Definition outside (rnd : Z) : Indet := mkIndet rnd 0 [].

(** The planner on [three_beliefs] after [initialize] and one update that
    samples belief 2: horizon 0 is complete. *)
Definition three_beliefs_h1 : POMDP :=
  snd (pomdp_perseus_update_cpu (outside 2000000000)
         (snd (pomdp_perseus_initialize_cpu three_beliefs zero_Gamma))).

(** ... and after one more update, which samples belief 0. *)
Definition three_beliefs_h1_u1 : POMDP :=
  snd (pomdp_perseus_update_cpu (outside 0) three_beliefs_h1).

(** Two states heard through a noisy observation: one action, which
    moves to either state with probability 1/2 and is observed correctly
    with probability 85/100. *)
Definition listen : POMDP :=
  mkPOMDP 2 2 1 2 1 2 (95 # 100) 1
    (Some [0; 1; 0; 1]) (Some [1 # 2; 1 # 2; 1 # 2; 1 # 2]%Q)
    (Some [85 # 100; 15 # 100; 15 # 100; 85 # 100]%Q) (Some [-1; -1]%Q)
    (Some [0; 1]) (Some [1 # 2; 1 # 2]%Q)
    0 None None None None 0 0 None 0.

(** Two states, each its own belief point, and two actions that all
    cost. *)
Definition costly : POMDP :=
  mkPOMDP 2 1 2 1 2 1 0%Q 2
    (Some [0; 0; 1; 1]) (Some [1; 1; 1; 1]%Q)
    (Some [1; 1; 1; 1]%Q) (Some [-1; -2; -2; -1]%Q)
    (Some [0; 1]) (Some [1; 1]%Q)
    0 None None None None 0 0 None 0.



(** The planner on [three_beliefs] in horizon 1 after [rand()] has returned
    [RAND_MAX] once, twice and three times. *)
Definition three_beliefs_h1_u2 : POMDP :=
  snd (pomdp_perseus_update_cpu (outside RAND_MAX) three_beliefs_h1_u1).

Definition three_beliefs_h1_u3 : POMDP :=
  snd (pomdp_perseus_update_cpu (outside RAND_MAX) three_beliefs_h1_u2).

Definition three_beliefs_h1_u4 : POMDP :=
  snd (pomdp_perseus_update_cpu (outside RAND_MAX) three_beliefs_h1_u3).

(** All five scratch arrays of the object are allocated. *)
Definition scratch_allocated (pomdp : POMDP) : Prop :=
  forall x, scratch_ptr_set pomdp x = true.

(** The values five updates obtain from outside: the first two calls of
    [rand()] pick beliefs 2 and 0, the next three return [RAND_MAX]. *)
Definition stalling_run : list Indet :=
  [outside 2000000000; outside 0;
   outside RAND_MAX; outside RAND_MAX; outside RAND_MAX].

(** ** Vocabulary of the runs *)



(** The object with its scratch state as [uninitialize] leaves it. *)
Definition released (pomdp : POMDP) : POMDP :=
  set_scratch pomdp 0 None None None None 0 0 None 0.




(** * Properties *)

(** ** Arrays and counted loops *)

Section Arrays.

Context {A : Type}.

Lemma upd_length (k : nat) (v : A) (a : list A) :
  length (upd k v a) = length a.
Proof.
  revert k; induction a as [|h t IH]; intros [|k]; simpl; auto.
Qed.

Lemma nth_upd (k j : nat) (v : A) (a : list A) (d : A) :
  nth j (upd k v a) d =
  if (j =? k)%nat && (k <? length a)%nat then v else nth j a d.
Proof.
  revert k j; induction a as [|h t IH]; intros k j.
  - destruct k, j; simpl; rewrite ?andb_false_r; reflexivity.
  - destruct k as [|k], j as [|j]; simpl; try reflexivity.
    rewrite IH. reflexivity.
Qed.

Lemma wr_length (a : list A) (i : Z) (v : A) : length (wr a i v) = length a.
Proof. apply upd_length. Qed.

Lemma range_length (k : Z) : length (range k) = Z.to_nat k.
Proof. unfold range. rewrite length_map, length_seq. reflexivity. Qed.

Lemma range_succ (k : nat) :
  range (Z.of_nat (S k)) = range (Z.of_nat k) ++ [Z.of_nat k].
Proof.
  unfold range. rewrite !Nat2Z.id, seq_S, map_app. reflexivity.
Qed.

Lemma range_of_nat (k : Z) : range k = range (Z.of_nat (Z.to_nat k)).
Proof. unfold range. rewrite Nat2Z.id. reflexivity. Qed.

Lemma In_range (i k : Z) : In i (range k) <-> 0 <= i < k.
Proof.
  unfold range. rewrite in_map_iff. split.
  - intros (x & <- & Hx). apply in_seq in Hx. lia.
  - intros H. exists (Z.to_nat i). split; [lia|]. apply in_seq. lia.
Qed.

Lemma fold_left_ext_in {S X : Type} (f g : S -> X -> S) (l : list X) (s : S) :
  (forall s x, In x l -> f s x = g s x) ->
  fold_left f l s = fold_left g l s.
Proof.
  revert s; induction l as [|x l IH]; intros s H; simpl; [reflexivity|].
  rewrite H by (left; reflexivity). apply IH.
  intros; apply H; right; assumption.
Qed.

(** A loop that rewrites the cells [off], ..., [off + c - 1] one by one,
    each from its own former content. *)
Lemma fold_wr_nth (d : A) (g : Z -> A -> A) (off : Z) (c : Z) (a : list A)
    (j : nat) :
  0 <= off ->
  nth j (fold_left (fun acc k => wr acc (off + k) (g k (rd d acc (off + k))))
                   (range c) a) d =
  if (Z.to_nat off <=? j)%nat && (j <? Z.to_nat off + Z.to_nat c)%nat
     && (j <? length a)%nat
  then g (Z.of_nat j - off) (nth j a d) else nth j a d.
Proof.
  intros Hoff. rewrite (range_of_nat c).
  induction (Z.to_nat c) as [|k IH].
  - simpl. replace (j <? Z.to_nat off + 0)%nat with (j <? Z.to_nat off)%nat
      by (f_equal; lia).
    destruct (Nat.leb_spec (Z.to_nat off) j), (Nat.ltb_spec j (Z.to_nat off));
      simpl; try reflexivity; lia.
  - rewrite range_succ, fold_left_app. simpl.
    set (acc := fold_left _ (range (Z.of_nat k)) a) in *.
    assert (Hlen : length acc = length a).
    { subst acc. clear IH. generalize (range (Z.of_nat k)). intros l.
      revert a. induction l as [|x l IHl]; intros a0; simpl; [reflexivity|].
      rewrite IHl. apply wr_length. }
    unfold wr at 1. rewrite nth_upd, Hlen.
    replace (Z.to_nat (off + Z.of_nat k)) with (Z.to_nat off + k)%nat by lia.
    destruct (Nat.eqb_spec j (Z.to_nat off + k)) as [->|Hne]; simpl.
    + destruct (Nat.ltb_spec (Z.to_nat off + k) (length a)); simpl.
      * unfold rd.
        replace (Z.to_nat (off + Z.of_nat k)) with (Z.to_nat off + k)%nat by lia.
        rewrite IH.
        replace (Z.to_nat off + k <? Z.to_nat off + k)%nat with false
          by (symmetry; apply Nat.ltb_ge; lia).
        rewrite andb_false_r. simpl.
        replace (Z.to_nat off <=? Z.to_nat off + k)%nat with true
          by (symmetry; apply Nat.leb_le; lia).
        replace (Z.to_nat off + k <? Z.to_nat off + S k)%nat with true
          by (symmetry; apply Nat.ltb_lt; lia).
        simpl. f_equal. lia.
      * rewrite IH, !andb_false_r. reflexivity.
    + rewrite IH.
      destruct (Nat.leb_spec (Z.to_nat off) j); simpl; [|reflexivity].
      destruct (Nat.ltb_spec j (Z.to_nat off + k)),
               (Nat.ltb_spec j (Z.to_nat off + S k)); simpl;
        try reflexivity; lia.
Qed.

Lemma fold_wr_length (f : list A -> Z -> Z) (g : list A -> Z -> A)
    (l : list Z) (a : list A) :
  length (fold_left (fun acc k => wr acc (f acc k) (g acc k)) l a) = length a.
Proof.
  revert a; induction l as [|x l IH]; intros a; simpl; [reflexivity|].
  rewrite IH. apply wr_length.
Qed.

Lemma memcpy_length (d : A) (dst : list A) (doff : Z) (src : list A)
    (soff count : Z) :
  length (memcpy d dst doff src soff count) = length dst.
Proof.
  unfold memcpy.
  apply (fold_wr_length (fun _ k => doff + k) (fun _ k => rd d src (soff + k))).
Qed.

(** The cells of the destination after [memcpy]. *)
Lemma memcpy_nth (d : A) (dst : list A) (doff : Z) (src : list A)
    (soff count : Z) (j : nat) :
  0 <= doff ->
  nth j (memcpy d dst doff src soff count) d =
  if (Z.to_nat doff <=? j)%nat && (j <? Z.to_nat doff + Z.to_nat count)%nat
     && (j <? length dst)%nat
  then rd d src (soff + (Z.of_nat j - doff)) else nth j dst d.
Proof.
  intros H. unfold memcpy.
  apply (fold_wr_nth d (fun k _ => rd d src (soff + k)) doff count dst j H).
Qed.

End Arrays.

(** ** Cells after stores *)


(** A loop that rewrites the cells [0], ..., [c - 1], each from its own
    former content. *)
Lemma fold_wr_rd {A : Type} (d : A) (g : Z -> A -> A) (c : Z) (a : list A)
    (j : Z) :
  0 <= j ->
  rd d (fold_left (fun acc k => wr acc k (g k (rd d acc k))) (range c) a) j =
  if (j <? c) && (j <? Z.of_nat (length a)) then g j (rd d a j) else rd d a j.
Proof.
  intros Hj.
  rewrite (fold_left_ext_in _
             (fun acc k => wr acc (0 + k) (g k (rd d acc (0 + k)))))
    by reflexivity.
  unfold rd at 1. rewrite fold_wr_nth by lia.
  change (Z.to_nat 0) with 0%nat. simpl.
  destruct (Nat.ltb_spec (Z.to_nat j) (Z.to_nat c)), (Z.ltb_spec j c);
    try lia; simpl; try reflexivity.
  destruct (Nat.ltb_spec (Z.to_nat j) (length a)),
           (Z.ltb_spec j (Z.of_nat (length a))); try lia; try reflexivity.
  unfold rd. f_equal. lia.
Qed.

(** ** Lists of distinct indices *)

Lemma firstn_upd_snoc {A : Type} (c : nat) (v : A) (l : list A) :
  (c < length l)%nat -> firstn (S c) (upd c v l) = firstn c l ++ [v].
Proof.
  revert l. induction c as [|c IH]; intros [|h t] Hl; simpl in *; try lia.
  - reflexivity.
  - f_equal. apply IH. lia.
Qed.

Lemma NoDup_strict_incl_length {A : Type} (l1 l2 : list A) (x : A) :
  NoDup l1 -> incl l1 l2 -> In x l2 -> ~ In x l1 ->
  (length l1 < length l2)%nat.
Proof.
  intros Hnd Hincl Hx Hnx.
  assert (H : (length (x :: l1) <= length l2)%nat).
  { apply NoDup_incl_length.
    - constructor; assumption.
    - intros y [<-|Hy]; [assumption|apply Hincl; assumption]. }
  simpl in H. lia.
Qed.

(** ** Sums accumulated by loops *)

Lemma fold_sum_shift (g : Z -> Q) (l : list Z) (init : Q) :
  (fold_left (fun acc i => acc + g i) l init == init + qsum g l)%Q.
Proof.
  unfold qsum. revert init. induction l as [|i l IH]; intros init; simpl.
  - ring.
  - rewrite IH, (IH (0 + g i)%Q). ring.
Qed.

Lemma qsum_nil (g : Z -> Q) : qsum g [] = 0%Q.
Proof. reflexivity. Qed.

Lemma qsum_cons (g : Z -> Q) (i : Z) (l : list Z) :
  (qsum g (i :: l) == g i + qsum g l)%Q.
Proof.
  unfold qsum at 1. simpl. rewrite fold_sum_shift. ring.
Qed.


Lemma qsum_ext (g h : Z -> Q) (l : list Z) :
  (forall i, In i l -> (g i == h i)%Q) -> (qsum g l == qsum h l)%Q.
Proof.
  induction l as [|i l IH]; intros H.
  - reflexivity.
  - rewrite !qsum_cons, (H i) by (left; reflexivity).
    rewrite IH by (intros; apply H; right; assumption). reflexivity.
Qed.

Lemma qsum_plus (g h : Z -> Q) (l : list Z) :
  (qsum (fun i => g i + h i) l == qsum g l + qsum h l)%Q.
Proof.
  induction l as [|i l IH].
  - rewrite !qsum_nil. ring.
  - rewrite !qsum_cons, IH. ring.
Qed.

Lemma qsum_scale_l (c : Q) (g : Z -> Q) (l : list Z) :
  (qsum (fun i => c * g i) l == c * qsum g l)%Q.
Proof.
  induction l as [|i l IH].
  - rewrite !qsum_nil. ring.
  - rewrite !qsum_cons, IH. ring.
Qed.

Lemma qsum_scale_r (c : Q) (g : Z -> Q) (l : list Z) :
  (qsum (fun i => g i * c) l == qsum g l * c)%Q.
Proof.
  induction l as [|i l IH].
  - rewrite !qsum_nil. ring.
  - rewrite !qsum_cons, IH. ring.
Qed.

Lemma qsum_zero (g : Z -> Q) (l : list Z) :
  (forall i, In i l -> (g i == 0)%Q) -> (qsum g l == 0)%Q.
Proof.
  induction l as [|i l IH]; intros H.
  - reflexivity.
  - rewrite qsum_cons, (H i) by (left; reflexivity).
    rewrite IH by (intros; apply H; right; assumption). ring.
Qed.

(** A sum that meets the index [k] once picks the term of [k]. *)
Lemma qsum_pick (k : Z) (x : Q) (l : list Z) :
  NoDup l -> In k l -> (qsum (fun i => if i =? k then x else 0) l == x)%Q.
Proof.
  induction l as [|i l IH]; intros Hnd Hin; [contradiction|].
  inversion Hnd as [|? ? Hni Hnd']; subst. rewrite qsum_cons.
  destruct (Z.eqb_spec i k) as [->|Hne].
  - rewrite qsum_zero; [ring|]. intros j Hj.
    destruct (Z.eqb_spec j k) as [->|]; [contradiction|reflexivity].
  - destruct Hin as [?|Hin]; [contradiction|]. rewrite IH by assumption. ring.
Qed.

Lemma qsum_swap (g : Z -> Z -> Q) (l1 l2 : list Z) :
  (qsum (fun i => qsum (fun j => g i j) l2) l1
   == qsum (fun j => qsum (fun i => g i j) l1) l2)%Q.
Proof.
  induction l1 as [|i l1 IH].
  - rewrite qsum_nil. symmetry. apply qsum_zero.
    intros; rewrite qsum_nil; reflexivity.
  - rewrite qsum_cons, IH, <- qsum_plus. apply qsum_ext.
    intros j _. rewrite qsum_cons. reflexivity.
Qed.

Lemma range_NoDup (k : Z) : NoDup (range k).
Proof.
  unfold range. apply Injective_map_NoDup.
  - intros x y. apply Nat2Z.inj.
  - apply seq_NoDup.
Qed.

(** ** The belief update is normalized *)

Section BeliefUpdate.

Variable pomdp : POMDP.
Variables (b : list Q) (a o : Z).

Hypothesis successors_in_range :
  forall s i, In s (range (n pomdp)) -> In i (range (ns pomdp)) ->
              S_at pomdp s a i < n pomdp.

Lemma transition_mass_shift (s sp : Z) (ks : list Z) (acc : Q) :
  (transition_mass pomdp a s sp ks acc
   == acc + transition_mass pomdp a s sp ks 0)%Q.
Proof.
  revert acc. induction ks as [|i ks IH]; intros acc; simpl.
  - ring.
  - destruct (S_at pomdp s a i <? 0); [ring|].
    rewrite IH, (IH (if _ =? _ then _ else _)).
    destruct (S_at pomdp s a i =? sp); ring.
Qed.

Lemma probability_observation_row_shift (s : Z) (ks : list Z) (val : Q) :
  (probability_observation_row pomdp a o s ks val
   == val + probability_observation_row pomdp a o s ks 0)%Q.
Proof.
  revert val. induction ks as [|i ks IH]; intros val; simpl.
  - ring.
  - destruct (S_at pomdp s a i <? 0); [ring|].
    rewrite IH, (IH (0 + _)%Q). ring.
Qed.

(** The probability of the observation from state [s], summed by
    successor state. *)
Lemma probability_observation_row_by_successor (s : Z) (ks : list Z) :
  (forall i, In i ks -> S_at pomdp s a i < n pomdp) ->
  (probability_observation_row pomdp a o s ks 0
   == qsum (fun sp => O_at pomdp a sp o * transition_mass pomdp a s sp ks 0)
           (range (n pomdp)))%Q.
Proof.
  induction ks as [|i ks IH]; intros Hin; simpl.
  - symmetry. apply qsum_zero. intros; ring.
  - destruct (Z.ltb_spec (S_at pomdp s a i) 0) as [Hneg|Hpos].
    + symmetry. apply qsum_zero. intros; ring.
    + rewrite probability_observation_row_shift, IH
        by (intros; apply Hin; right; assumption).
      assert (Hpick := qsum_pick (S_at pomdp s a i)
                (T_at pomdp s a i * O_at pomdp a (S_at pomdp s a i) o)
                (range (n pomdp)) (range_NoDup _)).
      rewrite <- Hpick
        by (apply In_range; split;
            [assumption | apply Hin; left; reflexivity]).
      rewrite Qplus_0_l, <- qsum_plus. apply qsum_ext. intros sp _.
      rewrite (transition_mass_shift s sp ks (if _ =? _ then _ else _)).
      rewrite (Z.eqb_sym sp).
      destruct (Z.eqb_spec (S_at pomdp s a i) sp) as [->|]; ring.
Qed.








End BeliefUpdate.


(** ** The belief update has no degenerate exit *)

(** C5, as stated, fails: the successor mass of observation 1 in
    [silent_model] is zero and the update does not report
    DegenerateBelief. *)
Lemma belief_update_zero_mass_not_degenerate :
  (successor_mass silent_model [1%Q] 0 1 == 0)%Q
  /\ fst (pomdp_expand_belief_update_cpu silent_model [1%Q] 0 1 [0%Q])
     <> NOVA_ERROR_DEGENERATE_BELIEF.
Proof.
  split; [vm_compute; reflexivity|].
  vm_compute. discriminate.
Qed.

(** C5, amended: [pomdp_expand_belief_update_cpu] returns Success for every
    belief, action and observation, those of zero successor mass included;
    it never returns DegenerateBelief. *)
Theorem belief_update_always_success (pomdp : POMDP) (b : list Q) (a o : Z)
    (bp : list Q) :
  fst (pomdp_expand_belief_update_cpu pomdp b a o bp) = NOVA_SUCCESS
  /\ fst (pomdp_expand_belief_update_cpu pomdp b a o bp)
     <> NOVA_ERROR_DEGENERATE_BELIEF.
Proof.
  unfold pomdp_expand_belief_update_cpu.
  destruct (fold_left _ (range (n pomdp)) (_, 0%Q)) as [bp' nc].
  simpl. split; [reflexivity|discriminate].
Qed.

(** ** Release of the scratch state *)

(** C10: [pomdp_perseus_uninitialize_cpu] always returns Success, zeroes
    [currentHorizon], [rGamma], [rGammaPrime] and [rTilde], nulls the five
    scratch pointers, releases exactly the pointers that were set, each once,
    and a second call releases nothing and changes nothing. *)
Theorem uninitialize_releases_and_is_idempotent (pomdp : POMDP) :
  let '(result, pomdp', released) := pomdp_perseus_uninitialize_cpu pomdp in
  result = NOVA_SUCCESS
  /\ currentHorizon pomdp' = 0 /\ rGamma pomdp' = 0
  /\ rGammaPrime pomdp' = 0 /\ rTilde pomdp' = 0
  /\ Gamma pomdp' = None /\ GammaPrime pomdp' = None
  /\ pi pomdp' = None /\ piPrime pomdp' = None /\ BTilde pomdp' = None
  /\ (forall x, In x released <-> scratch_ptr_set pomdp x = true)
  /\ NoDup released
  /\ pomdp_perseus_uninitialize_cpu pomdp' = (NOVA_SUCCESS, pomdp', []).
Proof.
  unfold pomdp_perseus_uninitialize_cpu.
  repeat (split; [reflexivity|]).
  split; [|split; [|reflexivity]].
  - intros x. unfold scratch_ptr_set.
    destruct (Gamma pomdp), (GammaPrime pomdp), (pi pomdp), (piPrime pomdp),
      (BTilde pomdp), x; simpl; split; intros H;
      try discriminate H; try reflexivity; try tauto;
      repeat (destruct H as [H|H]; try discriminate H); contradiction.
  - destruct (Gamma pomdp), (GammaPrime pomdp), (pi pomdp), (piPrime pomdp),
      (BTilde pomdp); simpl;
      repeat (constructor; [simpl; intuition congruence|]); constructor.
Qed.

(** ** Sampling from BTilde *)

Lemma sample_bTildeIndex_div (rnd rTilde_ : Z) :
  sample_bTildeIndex rnd rTilde_ = rnd * rTilde_ / RAND_MAX.
Proof.
  unfold sample_bTildeIndex, Qfloor, Qdiv, Qmult, Qinv, inject_Z, RAND_MAX.
  simpl. f_equal. lia.
Qed.

(** With [rand()] below [RAND_MAX] the sampled index is one of the
    [rTilde] entries. *)
Lemma sample_bTildeIndex_in_range (rnd rTilde_ : Z) :
  0 <= rnd < RAND_MAX -> 0 < rTilde_ ->
  0 <= sample_bTildeIndex rnd rTilde_ < rTilde_.
Proof.
  intros Hr Ht. rewrite sample_bTildeIndex_div. unfold RAND_MAX in *. split.
  - apply Z.div_pos; nia.
  - apply Z.div_lt_upper_bound; nia.
Qed.

(** C9 at [rand() = RAND_MAX]: the sampled index is [rTilde] itself, one
    past the last of the [rTilde] entries. *)
Theorem sample_bTildeIndex_at_RAND_MAX (rTilde_ : Z) :
  sample_bTildeIndex RAND_MAX rTilde_ = rTilde_
  /\ ~ (0 <= sample_bTildeIndex RAND_MAX rTilde_ < rTilde_).
Proof.
  assert (H : sample_bTildeIndex RAND_MAX rTilde_ = rTilde_).
  { rewrite sample_bTildeIndex_div. unfold RAND_MAX.
    rewrite Z.mul_comm. apply Z.div_mul. lia. }
  split; [exact H|]. rewrite H. lia.
Qed.

(** ** The update, by its intermediate values *)

Lemma pomdp_perseus_update_cpu_eq (w : Indet) (pomdp : POMDP) :
  pomdp_perseus_update_cpu w pomdp =
  if r pomdp <? update_dst_count pomdp
  then (NOVA_ERROR_OUT_OF_MEMORY,
        write_back pomdp (currentHorizon pomdp) (src_count pomdp)
          (update_dst_Gamma w pomdp) (update_dst_pi w pomdp)
          (update_dst_count pomdp) (BTilde pomdp) (rTilde pomdp))
  else if snd (update_BTilde w pomdp) =? 0
  then (NOVA_CONVERGED,
        write_back pomdp (u32 (currentHorizon pomdp + 1)) 0
          (update_dst_Gamma w pomdp) (update_dst_pi w pomdp)
          (update_dst_count pomdp)
          (reset_BTilde pomdp (fst (update_BTilde w pomdp))) (r pomdp))
  else (NOVA_SUCCESS,
        write_back pomdp (currentHorizon pomdp) (src_count pomdp)
          (update_dst_Gamma w pomdp) (update_dst_pi w pomdp)
          (update_dst_count pomdp)
          (fst (update_BTilde w pomdp)) (snd (update_BTilde w pomdp))).
Proof.
  unfold pomdp_perseus_update_cpu, update_BTilde, update_dst_Gamma,
    update_dst_pi, update_dst_count, append_backup, append_source,
    update_accepts, update_bDotAlpha, update_Vb, update_backup, update_bIndex,
    write_back, src_Gamma, src_pi, src_Gamma_ptr, src_pi_ptr, dst_Gamma_ptr,
    dst_pi_ptr, src_count, dst_count, horizon_even.
  destruct (currentHorizon pomdp mod 2 =? 0);
    destruct (pomdp_perseus_update_step_cpu _ _ _ _ _ _ _) as [alpha aAction];
    destruct (pomdp_perseus_compute_Vb_cpu _ _ _ _ _) as [Vnb aIdx];
    cbn [fst snd];
    destruct (Qle_bool Vnb _);
    destruct (_ <? _); try reflexivity;
    destruct (rebuild_BTilde _ _ _ _ _ _) as [BT rT]; reflexivity.
Qed.

(** ** The shape of the pools *)

Lemma new_float_length (k : Z) (content : list Q) :
  length (new_float k content) = Z.to_nat k.
Proof. unfold new_float. rewrite length_map. apply range_length. Qed.

Lemma new_uint_length (k : Z) : length (new_uint k) = Z.to_nat k.
Proof. unfold new_uint. rewrite length_map. apply range_length. Qed.

Lemma memcpy_firstn {A : Type} (d : A) (dst src : list A) (c : Z) :
  length dst = Z.to_nat c -> (Z.to_nat c <= length src)%nat ->
  memcpy d dst 0 src 0 c = firstn (Z.to_nat c) src.
Proof.
  intros Hd Hs. apply (nth_ext _ _ d d).
  - rewrite memcpy_length, length_firstn. lia.
  - intros j Hj. rewrite memcpy_length in Hj.
    rewrite memcpy_nth by lia. rewrite nth_firstn.
    change (Z.to_nat 0) with 0%nat. simpl.
    destruct (Nat.ltb_spec j (Z.to_nat c)); [|lia].
    destruct (Nat.ltb_spec j (length dst)); [|lia].
    simpl. unfold rd. f_equal. lia.
Qed.

Lemma deref_option_map_length {A : Type} (f : list A -> list A)
    (ptr : option (list A)) :
  (forall a, length (f a) = length a) ->
  length (deref (option_map f ptr)) = length (deref ptr).
Proof. intros H. destruct ptr; simpl; auto. Qed.

Lemma update_dst_Gamma_length (w : Indet) (pomdp : POMDP) :
  length (deref (update_dst_Gamma w pomdp)) = length (dst_Gamma pomdp).
Proof.
  unfold update_dst_Gamma, dst_Gamma. apply deref_option_map_length.
  intros a. destruct (update_accepts w pomdp);
    unfold append_backup, append_source; apply memcpy_length.
Qed.

Lemma update_dst_pi_length (w : Indet) (pomdp : POMDP) :
  length (deref (update_dst_pi w pomdp)) = length (dst_pi pomdp).
Proof.
  unfold update_dst_pi, dst_pi. apply deref_option_map_length.
  intros a. apply wr_length.
Qed.

Lemma rebuild_BTilde_length (pomdp : POMDP) (Gsrc : list Q) (rsrc : Z)
    (Gdst : list Q) (rdst : Z) (BT : option (list Z)) :
  length (deref (fst (rebuild_BTilde pomdp Gsrc rsrc Gdst rdst BT)))
  = length (deref BT).
Proof.
  unfold rebuild_BTilde. generalize 0 at 2. generalize (range (r pomdp)).
  intros l. revert BT. induction l as [|i l IH]; intros BT c; simpl.
  - reflexivity.
  - destruct (pomdp_perseus_compute_Vb_cpu pomdp i Gsrc rsrc 0) as [Vnb act].
    destruct (pomdp_perseus_compute_Vb_cpu pomdp i Gdst rdst act) as [Vnp1b ?].
    destruct (Qltb Vnp1b Vnb); simpl.
    + rewrite IH. apply deref_option_map_length. intros a. apply wr_length.
    + apply IH.
Qed.

Lemma reset_BTilde_length (pomdp : POMDP) (BT : option (list Z)) :
  length (deref (reset_BTilde pomdp BT)) = length (deref BT).
Proof.
  unfold reset_BTilde. apply deref_option_map_length. intros a.
  apply (fold_wr_length (fun _ i => i) (fun _ i => i)).
Qed.

Lemma u32_nonneg (x : Z) : 0 <= u32 x < 4294967296.
Proof. unfold u32. apply Z.mod_pos_bound. lia. Qed.

Lemma u32_small (x : Z) : 0 <= x < 4294967296 -> u32 x = x.
Proof. unfold u32. apply Z.mod_small. Qed.

Lemma u32_succ_even (x : Z) :
  (u32 (x + 1) mod 2 =? 0) = negb (x mod 2 =? 0).
Proof.
  unfold u32.
  destruct (Z.eqb_spec ((x + 1) mod 4294967296 mod 2) 0),
           (Z.eqb_spec (x mod 2) 0); simpl; try reflexivity; exfalso;
    Z.to_euclidean_division_equations; lia.
Qed.

Lemma initialize_bounded (pomdp : POMDP) (initialGamma : option (list Q)) :
  0 <= r pomdp ->
  policy_pool_bounded (snd (pomdp_perseus_initialize_cpu pomdp initialGamma)).
Proof.
  intros Hr. unfold pomdp_perseus_initialize_cpu.
  destruct (fold_left _ (range (r pomdp)) (new_uint (r pomdp), _))
    as [pi_ piP] eqn:Hpi.
  assert (Hlen : length pi_ = Z.to_nat (r pomdp)
                 /\ length piP = Z.to_nat (r pomdp)).
  { revert Hpi. generalize (range (r pomdp)).
    pose proof (new_uint_length (r pomdp)) as H0. revert H0.
    generalize (new_uint (r pomdp)) at 1 3. intros a Ha.
    pose proof (new_uint_length (r pomdp)) as H0. revert H0.
    generalize (new_uint (r pomdp)). intros b Hb l. revert a b Ha Hb.
    induction l as [|i l IH]; intros a b Ha Hb; simpl.
    - intros [= <- <-]. auto.
    - apply IH; rewrite wr_length; assumption. }
  unfold policy_pool_bounded, pools_shaped, src_count, horizon_even. simpl.
  rewrite !memcpy_length, new_float_length.
  rewrite (fold_wr_length (fun _ i => i) (fun _ i => i)), new_uint_length.
  intuition lia.
Qed.

Lemma update_bounded (w : Indet) (pomdp : POMDP) :
  policy_pool_bounded pomdp ->
  policy_pool_bounded (snd (pomdp_perseus_update_cpu w pomdp)).
Proof.
  intros [(HG & HGP & Hpi & HpiP & HBT) Hc].
  rewrite pomdp_perseus_update_cpu_eq.
  pose proof (update_dst_Gamma_length w pomdp) as LG.
  pose proof (update_dst_pi_length w pomdp) as Lpi.
  pose proof (rebuild_BTilde_length pomdp (src_Gamma pomdp) (src_count pomdp)
                (deref (update_dst_Gamma w pomdp)) (update_dst_count pomdp)
                (BTilde pomdp)) as LBT.
  fold (update_BTilde w pomdp) in LBT.
  pose proof (reset_BTilde_length pomdp (fst (update_BTilde w pomdp))) as LR.
  pose proof (u32_nonneg (dst_count pomdp + 1)) as Hu.
  pose proof (u32_succ_even (currentHorizon pomdp)) as Hpar.
  unfold policy_pool_bounded, pools_shaped, write_back, update_dst_count,
    dst_Gamma, dst_pi, dst_Gamma_ptr, dst_pi_ptr, src_count, dst_count,
    horizon_even in *.
  destruct (Z.ltb_spec (r pomdp) (u32 ((if currentHorizon pomdp mod 2 =? 0
                                 then rGammaPrime pomdp else rGamma pomdp) + 1)));
    [|destruct (snd (update_BTilde w pomdp) =? 0)];
    destruct (currentHorizon pomdp mod 2 =? 0) eqn:Hev; cbn [snd];
    cbn [n r currentHorizon Gamma GammaPrime pi piPrime rGamma rGammaPrime
         BTilde rTilde set_scratch];
    rewrite ?Hpar, ?Hev; cbn [negb];
    rewrite ?LG, ?Lpi, ?LBT, ?LR; intuition lia.
Qed.

Lemma update_model (w : Indet) (pomdp : POMDP) :
  n (snd (pomdp_perseus_update_cpu w pomdp)) = n pomdp
  /\ m (snd (pomdp_perseus_update_cpu w pomdp)) = m pomdp
  /\ r (snd (pomdp_perseus_update_cpu w pomdp)) = r pomdp.
Proof.
  rewrite pomdp_perseus_update_cpu_eq. unfold write_back.
  destruct (_ <? _); [|destruct (_ =? 0)];
    destruct (horizon_even pomdp); simpl; auto.
Qed.

Lemma initialize_model (pomdp : POMDP) (initialGamma : option (list Q)) :
  n (snd (pomdp_perseus_initialize_cpu pomdp initialGamma)) = n pomdp
  /\ m (snd (pomdp_perseus_initialize_cpu pomdp initialGamma)) = m pomdp
  /\ r (snd (pomdp_perseus_initialize_cpu pomdp initialGamma)) = r pomdp.
Proof.
  unfold pomdp_perseus_initialize_cpu.
  destruct (fold_left _ (range (r pomdp)) (new_uint (r pomdp), _)).
  simpl. auto.
Qed.

Lemma perseus_state_bounded (pomdp : POMDP) :
  perseus_state pomdp -> 0 <= r pomdp -> policy_pool_bounded pomdp.
Proof.
  induction 1 as [p ig|w p Hp IH]; intros Hr.
  - apply initialize_bounded.
    destruct (initialize_model p ig) as (_ & _ & <-). exact Hr.
  - apply update_bounded, IH.
    destruct (update_model w p) as (_ & _ & <-). exact Hr.
Qed.

(** ** The policy handed out *)

(** C6: in every state of an initialized planner, [get_policy] on a null
    handle returns Success and a policy whose [n] and [m] are the model's,
    whose count, vectors and actions are [rGamma], the first [rGamma] rows
    of [Gamma] and the first [rGamma] cells of [pi] at an even horizon, and
    the primed ones at an odd horizon; its count is at most the model's
    [r]. *)
Theorem get_policy_shape (pomdp : POMDP) :
  perseus_state pomdp ->
  0 <= n pomdp -> 0 <= r pomdp -> r pomdp * n pomdp < 4294967296 ->
  exists policy,
    pomdp_perseus_get_policy_cpu pomdp None = (NOVA_SUCCESS, Some policy)
    /\ pol_n policy = n pomdp /\ pol_m policy = m pomdp
    /\ pol_r policy <= r pomdp
    /\ (currentHorizon pomdp mod 2 = 0 ->
        pol_r policy = rGamma pomdp
        /\ pol_Gamma policy
           = firstn (Z.to_nat (rGamma pomdp * n pomdp)) (deref (Gamma pomdp))
        /\ pol_pi policy
           = firstn (Z.to_nat (rGamma pomdp)) (deref (pi pomdp)))
    /\ (currentHorizon pomdp mod 2 <> 0 ->
        pol_r policy = rGammaPrime pomdp
        /\ pol_Gamma policy
           = firstn (Z.to_nat (rGammaPrime pomdp * n pomdp))
                    (deref (GammaPrime pomdp))
        /\ pol_pi policy
           = firstn (Z.to_nat (rGammaPrime pomdp)) (deref (piPrime pomdp))).
Proof.
  intros Hst Hn Hr Hrn.
  destruct (perseus_state_bounded pomdp Hst Hr)
    as [(HG & HGP & Hpi & HpiP & _) Hc].
  rewrite (u32_small (r pomdp * n pomdp)) in HG, HGP by nia.
  unfold src_count, horizon_even in Hc.
  unfold pomdp_perseus_get_policy_cpu. cbn [is_null negb].
  destruct (Z.eqb_spec (currentHorizon pomdp mod 2) 0) as [Hev|Hodd];
    eexists; (split; [reflexivity|]); cbn [pol_n pol_m pol_r pol_Gamma pol_pi];
    (split; [reflexivity|]); (split; [reflexivity|]); (split; [lia|]);
    split; intros Hpar; try contradiction; try (exfalso; lia);
    (split; [reflexivity|]).
  - rewrite (u32_small (rGamma pomdp * n pomdp)) by nia.
    split; apply memcpy_firstn;
      rewrite ?new_float_length, ?new_uint_length; try reflexivity.
    + rewrite HG. apply Z2Nat.inj_le; nia.
    + rewrite Hpi. apply Z2Nat.inj_le; lia.
  - rewrite (u32_small (rGammaPrime pomdp * n pomdp)) by nia.
    split; apply memcpy_firstn;
      rewrite ?new_float_length, ?new_uint_length; try reflexivity.
    + rewrite HGP. apply Z2Nat.inj_le; nia.
    + rewrite HpiP. apply Z2Nat.inj_le; lia.
Qed.

Lemma get_policy_shape_witness :
  exists policy,
    pomdp_perseus_get_policy_cpu three_beliefs_h1 None
    = (NOVA_SUCCESS, Some policy)
    /\ pol_n policy = 3 /\ pol_m policy = 2 /\ pol_r policy <= 3.
Proof.
  destruct (get_policy_shape three_beliefs_h1) as (policy & H1 & H2 & H3 & H4 & _).
  - unfold three_beliefs_h1. apply perseus_state_update, perseus_state_init.
  - vm_compute. discriminate.
  - vm_compute. discriminate.
  - vm_compute. reflexivity.
  - exists policy. repeat split; assumption.
Defined.

(** ** The value-at-belief reduction and its sentinel *)

Lemma Qltb_lt (x y : Q) : Qltb x y = true <-> (x < y)%Q.
Proof. unfold Qltb, Qlt. apply Z.ltb_lt. Qed.

Lemma Qltb_ge (x y : Q) : Qltb x y = false <-> (y <= x)%Q.
Proof. unfold Qltb, Qle. apply Z.ltb_ge. Qed.

Section ValueAtBelief.

Variables (pomdp : POMDP) (bIndex : Z) (Gamma_ : list Q).

(** The reduction with negative infinity computes the maximum of a pool
    that is not empty, and the first vector that attains it. *)
Lemma compute_Vb_neg_inf_first_argmax (rGamma_ idx0 : Z) :
  0 < rGamma_ ->
  exists v i,
    compute_Vb_neg_inf pomdp bIndex Gamma_ rGamma_ idx0 = (Some v, i)
    /\ first_argmax pomdp bIndex Gamma_ rGamma_ v i.
Proof.
  intros Hpos. unfold compute_Vb_neg_inf, first_argmax.
  change (fun i => pomdp_perseus_compute_b_dot_alpha_cpu pomdp bIndex Gamma_
                     (u32 (i * n pomdp)))
    with (score pomdp bIndex Gamma_).
  rewrite (range_of_nat rGamma_).
  assert (Hk : (0 < Z.to_nat rGamma_)%nat) by lia.
  assert (Hgen : forall k, (0 < k)%nat ->
    exists v i,
      fold_left
        (fun st i =>
           if below (fst st) (score pomdp bIndex Gamma_ i)
           then (Some (score pomdp bIndex Gamma_ i), i) else st)
        (range (Z.of_nat k)) (None, idx0) = (Some v, i)
      /\ 0 <= i < Z.of_nat k /\ v = score pomdp bIndex Gamma_ i
      /\ (forall j, 0 <= j < Z.of_nat k -> (score pomdp bIndex Gamma_ j <= v)%Q)
      /\ (forall j, 0 <= j < i -> (score pomdp bIndex Gamma_ j < v)%Q)).
  { clear Hk. induction k as [|k IH]; intros Hk; [lia|].
    rewrite range_succ, fold_left_app. cbn [fold_left].
    destruct k as [|k].
    - cbn [range Z.of_nat Z.to_nat seq map fold_left fst below].
      exists (score pomdp bIndex Gamma_ 0), 0. repeat split; try lia.
      intros j Hj. replace j with 0 by lia. apply Qle_refl.
    - destruct (IH ltac:(lia)) as (v & i & -> & Hi & Hv & Hmax & Hfirst).
      cbn [fst below].
      destruct (Qltb v (score pomdp bIndex Gamma_ (Z.of_nat (S k)))) eqn:Hlt.
      + apply Qltb_lt in Hlt.
        exists (score pomdp bIndex Gamma_ (Z.of_nat (S k))), (Z.of_nat (S k)).
        repeat split; try lia.
        * intros j Hj. destruct (Z.eq_dec j (Z.of_nat (S k))) as [->|Hne].
          -- apply Qle_refl.
          -- apply Qlt_le_weak.
             eapply Qle_lt_trans; [apply Hmax; lia|exact Hlt].
        * intros j Hj. eapply Qle_lt_trans; [apply Hmax; lia|exact Hlt].
      + apply Qltb_ge in Hlt. exists v, i.
        repeat split; try lia; try assumption.
        intros j Hj. destruct (Z.eq_dec j (Z.of_nat (S k))) as [->|Hne].
        * exact Hlt.
        * apply Hmax. lia. }
  destruct (Hgen _ Hk) as (v & i & H1 & H2 & H3 & H4 & H5).
  exists v, i. rewrite Z2Nat.id in * by lia. split; [exact H1|auto].
Qed.

(** Where a vector of the pool scores above [FLT_MIN], the reduction as
    written and the reduction with negative infinity agree. *)
Lemma compute_Vb_sentinel_agree (rGamma_ idx0 : Z) :
  (exists j, 0 <= j < rGamma_ /\ (FLT_MIN < score pomdp bIndex Gamma_ j)%Q) ->
  exists v i,
    pomdp_perseus_compute_Vb_cpu pomdp bIndex Gamma_ rGamma_ idx0 = (v, i)
    /\ compute_Vb_neg_inf pomdp bIndex Gamma_ rGamma_ idx0 = (Some v, i).
Proof.
  intros (j & Hj & Hsc).
  unfold pomdp_perseus_compute_Vb_cpu, compute_Vb_neg_inf.
  rewrite (range_of_nat rGamma_).
  assert (Hjk : j < Z.of_nat (Z.to_nat rGamma_)) by lia.
  assert (Inv : forall k,
    let s1 := fold_left
                (fun st i =>
                   let d := pomdp_perseus_compute_b_dot_alpha_cpu pomdp bIndex
                              Gamma_ (u32 (i * n pomdp)) in
                   if Qltb (fst st) d then (d, i) else st)
                (range (Z.of_nat k)) (FLT_MIN, idx0) in
    let s2 := fold_left
                (fun st i =>
                   let d := pomdp_perseus_compute_b_dot_alpha_cpu pomdp bIndex
                              Gamma_ (u32 (i * n pomdp)) in
                   if below (fst st) d then (Some d, i) else st)
                (range (Z.of_nat k)) (None, idx0) in
    ((forall i, 0 <= i < Z.of_nat k -> (score pomdp bIndex Gamma_ i <= FLT_MIN)%Q)
     /\ s1 = (FLT_MIN, idx0)
     /\ (fst s2 = None \/ exists v, fst s2 = Some v /\ (v <= FLT_MIN)%Q))
    \/ (s2 = (Some (fst s1), snd s1) /\ (FLT_MIN < fst s1)%Q)).
  { induction k as [|k IH]; cbv zeta in *.
    - left. simpl. repeat split; auto. intros; lia.
    - rewrite range_succ, !fold_left_app. cbn [fold_left].
      fold (score pomdp bIndex Gamma_ (Z.of_nat k)).
      destruct IH as [(Hall & -> & Hs2)|(-> & Hgt)]; cbn [fst snd below].
      + destruct (Qltb FLT_MIN (score pomdp bIndex Gamma_ (Z.of_nat k))) eqn:Hlt.
        * right. apply Qltb_lt in Hlt. cbn [fst snd]. split; [|exact Hlt].
          destruct Hs2 as [->|(v & -> & Hv)]; cbn [below]; [reflexivity|].
          replace (Qltb v (score pomdp bIndex Gamma_ (Z.of_nat k))) with true; [reflexivity|].
          symmetry. apply Qltb_lt. eapply Qle_lt_trans; eassumption.
        * left. apply Qltb_ge in Hlt. repeat split.
          -- intros i Hi. destruct (Z.eq_dec i (Z.of_nat k)) as [->|];
               [exact Hlt|apply Hall; lia].
          -- destruct Hs2 as [Hn|(v & Hv & Hle)].
             ++ destruct (fold_left _ (range (Z.of_nat k)) (None, idx0))
                  as [o2 i2]. cbn [fst] in *. subst o2. cbn [below fst].
                right. eexists; split; [reflexivity|exact Hlt].
             ++ destruct (fold_left _ (range (Z.of_nat k)) (None, idx0))
                  as [o2 i2]. cbn [fst] in *. subst o2. cbn [below].
                destruct (Qltb v (score pomdp bIndex Gamma_ (Z.of_nat k))); cbn [fst].
                ** right. eexists; split; [reflexivity|exact Hlt].
                ** right. eexists; split; [reflexivity|exact Hle].
      + right.
        destruct (Qltb (fst _) (score pomdp bIndex Gamma_ (Z.of_nat k))) eqn:Hlt; cbn [fst snd].
        * split; [reflexivity|]. apply Qltb_lt in Hlt.
          eapply Qlt_trans; eassumption.
        * split; [reflexivity|exact Hgt]. }
  specialize (Inv (Z.to_nat rGamma_)). cbv zeta in Inv.
  destruct Inv as [(Hall & _)|(H2 & _)].
  - exfalso. specialize (Hall j ltac:(lia)).
    exact (Qlt_irrefl _ (Qlt_le_trans _ _ _ Hsc Hall)).
  - destruct (fold_left _ (range (Z.of_nat (Z.to_nat rGamma_))) (FLT_MIN, idx0))
      as [v i]. exists v, i. split; [reflexivity|exact H2].
Qed.

End ValueAtBelief.


(** ** The acceptance rule *)

(** What an update leaves in the pool it writes. *)
Lemma update_written (w : Indet) (pomdp : POMDP) :
  let after := snd (pomdp_perseus_update_cpu w pomdp) in
  written_Gamma pomdp after = update_dst_Gamma w pomdp
  /\ written_pi pomdp after = update_dst_pi w pomdp
  /\ written_count pomdp after = u32 (dst_count pomdp + 1).
Proof.
  cbv zeta. rewrite pomdp_perseus_update_cpu_eq.
  unfold written_Gamma, written_pi, written_count, write_back,
    update_dst_count.
  destruct (_ <? _); [|destruct (_ =? 0)];
    destruct (horizon_even pomdp); cbn; auto.
Qed.

(** Where a vector of the source pool scores above [FLT_MIN] at the sampled
    belief, the update follows the acceptance rule: with [Vnb] the maximum
    over the source pool, it appends the backup and its action when
    [bDotAlpha >= Vnb], and the first maximal source vector with its action
    otherwise; the count of the pool it writes goes up by one. *)
Lemma update_acceptance_rule (w : Indet) (pomdp : POMDP) :
  (exists j, 0 <= j < src_count pomdp
             /\ (FLT_MIN < score pomdp (update_bIndex w pomdp)
                                 (src_Gamma pomdp) j)%Q) ->
  let after := snd (pomdp_perseus_update_cpu w pomdp) in
  written_Gamma pomdp after = claimed_dst_Gamma w pomdp
  /\ written_pi pomdp after = claimed_dst_pi w pomdp
  /\ written_count pomdp after = u32 (dst_count pomdp + 1).
Proof.
  intros Hj. cbv zeta.
  destruct (update_written w pomdp) as (HG & Hpi & Hc).
  rewrite HG, Hpi, Hc.
  destruct (compute_Vb_sentinel_agree pomdp (update_bIndex w pomdp)
              (src_Gamma pomdp) (src_count pomdp) 0 Hj)
    as (v & i & Hcode & Hinf).
  unfold update_dst_Gamma, update_dst_pi, claimed_dst_Gamma, claimed_dst_pi,
    update_accepts, update_Vb.
  rewrite Hcode, Hinf. cbn [fst snd].
  destruct (Qle_bool v (update_bDotAlpha w pomdp)); auto.
Qed.

(** The rule at work on [three_beliefs] in horizon 1, belief 2 sampled: the
    source vector scores 11 there. *)
Lemma update_acceptance_rule_witness :
  written_Gamma three_beliefs_h1
    (snd (pomdp_perseus_update_cpu (outside 2000000000) three_beliefs_h1))
  = claimed_dst_Gamma (outside 2000000000) three_beliefs_h1
  /\ written_pi three_beliefs_h1
       (snd (pomdp_perseus_update_cpu (outside 2000000000) three_beliefs_h1))
     = claimed_dst_pi (outside 2000000000) three_beliefs_h1
  /\ written_count three_beliefs_h1
       (snd (pomdp_perseus_update_cpu (outside 2000000000) three_beliefs_h1))
     = u32 (dst_count three_beliefs_h1 + 1).
Proof.
  apply (update_acceptance_rule (outside 2000000000) three_beliefs_h1).
  exists 0. split; vm_compute; split; reflexivity || discriminate.
Defined.


(** ** The value of a belief under a pool *)

Section PoolValue.

Variables (pomdp : POMDP) (bIndex : Z).

Lemma compute_Vb_succ (G : list Q) (k : nat) (idx0 : Z) :
  pomdp_perseus_compute_Vb_cpu pomdp bIndex G (Z.of_nat (S k)) idx0
  = (let st := pomdp_perseus_compute_Vb_cpu pomdp bIndex G (Z.of_nat k) idx0 in
     if Qltb (fst st) (score pomdp bIndex G (Z.of_nat k))
     then (score pomdp bIndex G (Z.of_nat k), Z.of_nat k) else st).
Proof.
  unfold pomdp_perseus_compute_Vb_cpu.
  rewrite range_succ, fold_left_app. reflexivity.
Qed.

(** The value is at least [FLT_MIN] and at least every score; it is
    [FLT_MIN], the index being left as it was, or the score of the vector
    whose index is returned. *)
Lemma compute_Vb_bounds (G : list Q) (c idx0 : Z) :
  let st := pomdp_perseus_compute_Vb_cpu pomdp bIndex G c idx0 in
  (FLT_MIN <= fst st)%Q
  /\ (forall j, 0 <= j < c -> (score pomdp bIndex G j <= fst st)%Q)
  /\ ((fst st = FLT_MIN /\ snd st = idx0)
      \/ (0 <= snd st < c /\ fst st = score pomdp bIndex G (snd st))).
Proof.
  cbv zeta.
  assert (Hgen : forall k : nat,
    let st := pomdp_perseus_compute_Vb_cpu pomdp bIndex G (Z.of_nat k) idx0 in
    (FLT_MIN <= fst st)%Q
    /\ (forall j, 0 <= j < Z.of_nat k -> (score pomdp bIndex G j <= fst st)%Q)
    /\ ((fst st = FLT_MIN /\ snd st = idx0)
        \/ (0 <= snd st < Z.of_nat k
            /\ fst st = score pomdp bIndex G (snd st)))).
  { induction k as [|k IH]; cbv zeta in *.
    - cbn. repeat split; [apply Qle_refl|intros; lia|auto].
    - rewrite compute_Vb_succ. cbv zeta.
      destruct IH as (Hmin & Hall & Hidx).
      destruct (Qltb _ (score pomdp bIndex G (Z.of_nat k))) eqn:Hlt;
        cbn [fst snd].
      + apply Qltb_lt in Hlt. repeat split.
        * apply Qlt_le_weak. eapply Qle_lt_trans; eassumption.
        * intros j Hj. destruct (Z.eq_dec j (Z.of_nat k)) as [->|];
            [apply Qle_refl|].
          apply Qlt_le_weak. eapply Qle_lt_trans; [apply Hall; lia|exact Hlt].
        * right. split; [lia|reflexivity].
      + apply Qltb_ge in Hlt. repeat split.
        * exact Hmin.
        * intros j Hj. destruct (Z.eq_dec j (Z.of_nat k)) as [->|];
            [exact Hlt|apply Hall; lia].
        * destruct Hidx as [?|[? ?]]; [left; assumption|right; split; [lia|assumption]]. }
  destruct (Z.le_gt_cases 0 c) as [Hc|Hc].
  - specialize (Hgen (Z.to_nat c)). cbv zeta in Hgen.
    rewrite Z2Nat.id in Hgen by lia. exact Hgen.
  - unfold pomdp_perseus_compute_Vb_cpu, range.
    replace (Z.to_nat c) with 0%nat by lia. cbn.
    repeat split; [apply Qle_refl|intros; lia|auto].
Qed.

(** The value does not depend on the index the caller's variable holds. *)
Lemma compute_Vb_value_any_index (G : list Q) (c idx0 idx1 : Z) :
  fst (pomdp_perseus_compute_Vb_cpu pomdp bIndex G c idx0)
  = fst (pomdp_perseus_compute_Vb_cpu pomdp bIndex G c idx1).
Proof.
  unfold pomdp_perseus_compute_Vb_cpu. generalize (range c). intros l.
  generalize FLT_MIN. revert idx0 idx1.
  induction l as [|i l IH]; intros idx0 idx1 v; cbn [fold_left fst].
  - reflexivity.
  - destruct (Qltb v _); apply IH.
Qed.

(** Pools with the same scores have the same value. *)
Lemma compute_Vb_ext (G G' : list Q) (c idx0 : Z) :
  (forall j, 0 <= j < c -> score pomdp bIndex G j = score pomdp bIndex G' j) ->
  pomdp_perseus_compute_Vb_cpu pomdp bIndex G c idx0
  = pomdp_perseus_compute_Vb_cpu pomdp bIndex G' c idx0.
Proof.
  intros H. unfold pomdp_perseus_compute_Vb_cpu.
  apply fold_left_ext_in. intros st i Hi. apply In_range in Hi.
  cbv zeta. fold (score pomdp bIndex G i). fold (score pomdp bIndex G' i).
  rewrite H by assumption. reflexivity.
Qed.

(** One more vector can only raise the value. *)
Lemma compute_Vb_grows (G : list Q) (c idx0 : Z) :
  0 <= c ->
  (fst (pomdp_perseus_compute_Vb_cpu pomdp bIndex G c idx0)
   <= fst (pomdp_perseus_compute_Vb_cpu pomdp bIndex G (c + 1) idx0))%Q
  /\ (score pomdp bIndex G c
      <= fst (pomdp_perseus_compute_Vb_cpu pomdp bIndex G (c + 1) idx0))%Q.
Proof.
  intros Hc. replace (c + 1) with (Z.of_nat (S (Z.to_nat c))) by lia.
  rewrite compute_Vb_succ. cbv zeta. rewrite Z2Nat.id by lia.
  destruct (Qltb _ (score pomdp bIndex G c)) eqn:Hlt; cbn [fst].
  - apply Qltb_lt in Hlt. split; [apply Qlt_le_weak; exact Hlt|apply Qle_refl].
  - apply Qltb_ge in Hlt. split; [apply Qle_refl|exact Hlt].
Qed.

Hypothesis support_in_range :
  forall j, In j (range (rz pomdp)) -> Z_at pomdp bIndex j < n pomdp.

(** The dot product reads the cells [off], ..., [off + n - 1] only. *)
Lemma b_dot_alpha_ext (G1 G2 : list Q) (off1 off2 : Z) :
  (forall s, 0 <= s < n pomdp -> qrd G1 (off1 + s) = qrd G2 (off2 + s)) ->
  pomdp_perseus_compute_b_dot_alpha_cpu pomdp bIndex G1 off1
  = pomdp_perseus_compute_b_dot_alpha_cpu pomdp bIndex G2 off2.
Proof.
  intros Hcells. unfold pomdp_perseus_compute_b_dot_alpha_cpu.
  generalize 0%Q. revert support_in_range. generalize (range (rz pomdp)).
  intros l. induction l as [|j l IH]; intros Hin acc; simpl.
  - reflexivity.
  - destruct (Z.ltb_spec (Z_at pomdp bIndex j) 0); [reflexivity|].
    rewrite Hcells by (split; [assumption|apply Hin; left; reflexivity]).
    apply IH. intros; apply Hin; right; assumption.
Qed.

End PoolValue.

(** ** A vector appended to a pool *)

Section Append.

Variable pomdp : POMDP.
Variables (G src : list Q) (c soff : Z).

Hypothesis n_nonneg : 0 <= n pomdp.
Hypothesis cells_fit : r pomdp * n pomdp < 4294967296.
Hypothesis row_free : 0 <= c < r pomdp.
Hypothesis pool_length : length G = Z.to_nat (r pomdp * n pomdp).

Lemma append_offset : u32 (c * n pomdp) = c * n pomdp.
Proof. apply u32_small. nia. Qed.

Lemma append_cell_below (k : Z) :
  0 <= k < c * n pomdp ->
  qrd (memcpy 0%Q G (u32 (c * n pomdp)) src soff (n pomdp)) k = qrd G k.
Proof.
  intros Hk. unfold qrd, rd. rewrite append_offset, memcpy_nth by nia.
  destruct (Nat.leb_spec (Z.to_nat (c * n pomdp)) (Z.to_nat k)); [lia|].
  reflexivity.
Qed.

Lemma append_cell_row (s : Z) :
  0 <= s < n pomdp ->
  qrd (memcpy 0%Q G (u32 (c * n pomdp)) src soff (n pomdp)) (c * n pomdp + s)
  = qrd src (soff + s).
Proof.
  intros Hs. unfold qrd. unfold rd at 1.
  rewrite append_offset, memcpy_nth by nia.
  destruct (Nat.leb_spec (Z.to_nat (c * n pomdp))
                         (Z.to_nat (c * n pomdp + s))); [|lia].
  destruct (Nat.ltb_spec (Z.to_nat (c * n pomdp + s))
                         (Z.to_nat (c * n pomdp) + Z.to_nat (n pomdp)));
    [|lia].
  destruct (Nat.ltb_spec (Z.to_nat (c * n pomdp + s)) (length G)); [|nia].
  simpl. f_equal. lia.
Qed.

Variable bIndex : Z.

Hypothesis support_in_range :
  forall j, In j (range (rz pomdp)) -> Z_at pomdp bIndex j < n pomdp.

(** The vectors below the appended one keep their scores. *)
Lemma append_score_below (j : Z) :
  0 <= j < c ->
  score pomdp bIndex (memcpy 0%Q G (u32 (c * n pomdp)) src soff (n pomdp)) j
  = score pomdp bIndex G j.
Proof.
  intros Hj. unfold score. apply b_dot_alpha_ext; [assumption|].
  intros s Hs. rewrite (u32_small (j * n pomdp)) by nia.
  apply append_cell_below. nia.
Qed.

(** The appended vector scores what its source scores. *)
Lemma append_score_row :
  score pomdp bIndex (memcpy 0%Q G (u32 (c * n pomdp)) src soff (n pomdp)) c
  = pomdp_perseus_compute_b_dot_alpha_cpu pomdp bIndex src soff.
Proof.
  unfold score. apply b_dot_alpha_ext; [assumption|].
  intros s Hs. rewrite append_offset at 2. apply append_cell_row. exact Hs.
Qed.

(** The value of the belief can only go up by the append. *)
Lemma append_value_grows (idx0 : Z) :
  (fst (pomdp_perseus_compute_Vb_cpu pomdp bIndex G c idx0)
   <= fst (pomdp_perseus_compute_Vb_cpu pomdp bIndex
             (memcpy 0%Q G (u32 (c * n pomdp)) src soff (n pomdp))
             (c + 1) idx0))%Q.
Proof.
  rewrite (compute_Vb_ext pomdp bIndex G
             (memcpy 0%Q G (u32 (c * n pomdp)) src soff (n pomdp)) c idx0).
  - apply compute_Vb_grows. lia.
  - intros j Hj. symmetry. apply append_score_below. exact Hj.
Qed.

Lemma append_value_above_row (idx0 : Z) :
  (pomdp_perseus_compute_b_dot_alpha_cpu pomdp bIndex src soff
   <= fst (pomdp_perseus_compute_Vb_cpu pomdp bIndex
             (memcpy 0%Q G (u32 (c * n pomdp)) src soff (n pomdp))
             (c + 1) idx0))%Q.
Proof.
  rewrite <- append_score_row. apply compute_Vb_grows. lia.
Qed.

End Append.

(** ** The rebuilt BTilde *)

Lemma rebuild_BTilde_eq (pomdp : POMDP) (Gsrc : list Q) (rsrc : Z)
    (Gdst : list Q) (rdst : Z) (BT : option (list Z)) :
  rebuild_BTilde pomdp Gsrc rsrc Gdst rdst BT
  = fold_left
      (fun st i =>
         if degraded pomdp Gsrc rsrc Gdst rdst i
         then (option_map (fun BT => wr BT (snd st) i) (fst st),
               u32 (snd st + 1))
         else st)
      (range (r pomdp)) (BT, 0).
Proof.
  unfold rebuild_BTilde. apply fold_left_ext_in. intros st i _.
  unfold degraded.
  rewrite (compute_Vb_value_any_index pomdp i Gdst rdst 0
             (snd (pomdp_perseus_compute_Vb_cpu pomdp i Gsrc rsrc 0))).
  destruct (pomdp_perseus_compute_Vb_cpu pomdp i Gsrc rsrc 0) as [Vnb act].
  cbn [fst snd].
  destruct (pomdp_perseus_compute_Vb_cpu pomdp i Gdst rdst act) as [Vnp1b ?].
  reflexivity.
Qed.

(** The rebuilt BTilde lists the degraded beliefs in increasing order. *)
Lemma rebuild_BTilde_filter (pomdp : POMDP) (Gsrc : list Q) (rsrc : Z)
    (Gdst : list Q) (rdst : Z) (bt : list Z) :
  0 <= r pomdp < 4294967296 -> length bt = Z.to_nat (r pomdp) ->
  let kept := filter (degraded pomdp Gsrc rsrc Gdst rdst) (range (r pomdp)) in
  exists bt',
    rebuild_BTilde pomdp Gsrc rsrc Gdst rdst (Some bt)
    = (Some bt', Z.of_nat (length kept))
    /\ length bt' = length bt
    /\ firstn (length kept) bt' = kept.
Proof.
  intros Hr Hlen. cbv zeta. rewrite rebuild_BTilde_eq.
  rewrite (range_of_nat (r pomdp)).
  assert (Hk : (Z.to_nat (r pomdp) <= length bt)%nat) by lia.
  revert Hk. generalize (Z.to_nat (r pomdp)) as k.
  induction k as [|k IH]; intros Hk.
  - exists bt. cbn. auto.
  - destruct (IH ltac:(lia)) as (bt' & Hfold & Hlen' & Hfirst).
    rewrite range_succ, fold_left_app, Hfold, filter_app.
    cbn [fold_left fst snd filter].
    set (kept := filter (degraded pomdp Gsrc rsrc Gdst rdst)
                        (range (Z.of_nat k))) in *.
    assert (Hkept : (length kept <= k)%nat).
    { subst kept. etransitivity; [apply filter_length_le|].
      rewrite range_length. lia. }
    destruct (degraded pomdp Gsrc rsrc Gdst rdst (Z.of_nat k)).
    + exists (wr bt' (Z.of_nat (length kept)) (Z.of_nat k)).
      rewrite length_app, wr_length. cbn [length option_map].
      repeat split.
      * f_equal. rewrite u32_small by lia. lia.
      * exact Hlen'.
      * replace (length kept + 1)%nat with (S (length kept)) by lia.
        unfold wr. rewrite Nat2Z.id, firstn_upd_snoc by lia.
        rewrite Hfirst. reflexivity.
    + exists bt'. rewrite app_nil_r. auto.
Qed.

(** ** BTilde shrinks while [rand()] stays below [RAND_MAX] *)

Lemma In_nth_firstn {A : Type} (l : list A) (d : A) (k c : nat) :
  (k < c)%nat -> (c <= length l)%nat -> In (nth k l d) (firstn c l).
Proof.
  intros Hk Hc.
  assert (H : nth k (firstn c l) d = nth k l d).
  { rewrite nth_firstn. destruct (Nat.ltb_spec k c); [reflexivity|lia]. }
  rewrite <- H. apply nth_In. rewrite length_firstn. lia.
Qed.

Lemma memcpy_nil {A : Type} (d : A) (doff : Z) (src : list A)
    (soff count : Z) :
  memcpy d [] doff src soff count = [].
Proof. apply length_zero_iff_nil. rewrite memcpy_length. reflexivity. Qed.

Lemma update_dst_Gamma_deref (w : Indet) (pomdp : POMDP) :
  deref (update_dst_Gamma w pomdp) = update_appended w pomdp.
Proof.
  unfold update_dst_Gamma, update_appended, dst_Gamma.
  destruct (dst_Gamma_ptr pomdp); [destruct (update_accepts w pomdp); reflexivity|].
  destruct (update_accepts w pomdp); cbn [option_map deref];
    unfold append_backup, append_source; rewrite memcpy_nil; reflexivity.
Qed.

Section UpdateInRange.

Variables (w : Indet) (pomdp : POMDP).

Hypothesis model : model_ok pomdp.
Hypothesis inv : perseus_inv pomdp.
Hypothesis rand_in_range : 0 <= rand_value w < RAND_MAX.

Lemma update_bIndex_active : In (update_bIndex w pomdp) (active_beliefs pomdp).
Proof.
  destruct inv as ((_ & _ & _ & _ & HBT) & _ & Hd & Ht & Hsum & _).
  pose proof (sample_bTildeIndex_in_range (rand_value w) (rTilde pomdp)
                rand_in_range Ht) as Hidx.
  unfold update_bIndex, active_beliefs, zrd, rd.
  apply In_nth_firstn; lia.
Qed.

Lemma update_bIndex_in_range : 0 <= update_bIndex w pomdp < r pomdp.
Proof.
  destruct inv as (_ & _ & _ & _ & _ & _ & Hrange & _).
  apply Hrange, update_bIndex_active.
Qed.

Lemma dst_row_free : 0 <= dst_count pomdp < r pomdp.
Proof. destruct inv as (_ & _ & Hd & Ht & Hsum & _). lia. Qed.

Lemma dst_Gamma_length :
  length (dst_Gamma pomdp) = Z.to_nat (r pomdp * n pomdp).
Proof.
  destruct inv as ((HG & HGP & _) & _).
  destruct model as (Hn & Hr & Hrn & _).
  rewrite u32_small in HG, HGP by nia.
  unfold dst_Gamma, dst_Gamma_ptr. destruct (horizon_even pomdp); assumption.
Qed.

(** The append is a copy of [n] cells into row [dst_count]. *)
Lemma update_appended_memcpy :
  exists src soff,
    update_appended w pomdp
    = memcpy 0%Q (dst_Gamma pomdp) (u32 (dst_count pomdp * n pomdp))
             src soff (n pomdp)
    /\ ((fst (update_Vb w pomdp) <= FLT_MIN)%Q
        \/ (fst (update_Vb w pomdp)
            <= pomdp_perseus_compute_b_dot_alpha_cpu pomdp
                 (update_bIndex w pomdp) src soff)%Q).
Proof.
  unfold update_appended.
  destruct (update_accepts w pomdp) eqn:Hacc.
  - exists (fst (update_backup w pomdp)), 0. split; [reflexivity|].
    unfold update_accepts in Hacc. apply Qle_bool_iff in Hacc.
    right. exact Hacc.
  - exists (src_Gamma pomdp), (u32 (snd (update_Vb w pomdp) * n pomdp)).
    split; [reflexivity|].
    destruct (compute_Vb_bounds pomdp (update_bIndex w pomdp)
                (src_Gamma pomdp) (src_count pomdp) 0)
      as (_ & _ & [(Hv & _)|(_ & Hv)]);
      fold (update_Vb w pomdp) in Hv; rewrite Hv.
    + left. apply Qle_refl.
    + right. apply Qle_refl.
Qed.

(** The sampled belief is not degraded after the append. *)
Lemma update_settles_bIndex :
  degraded pomdp (src_Gamma pomdp) (src_count pomdp)
           (update_appended w pomdp) (dst_count pomdp + 1)
           (update_bIndex w pomdp) = false.
Proof.
  destruct model as (Hn & Hr & Hrn & Hsupp).
  destruct update_appended_memcpy as (src & soff & -> & Hle).
  unfold degraded. apply Qltb_ge. fold (update_Vb w pomdp).
  destruct Hle as [Hle|Hle]; (eapply Qle_trans; [exact Hle|]).
  - apply (compute_Vb_bounds pomdp (update_bIndex w pomdp)).
  - apply append_value_above_row; try assumption.
    + apply dst_row_free.
    + apply dst_Gamma_length.
    + intros j Hj. apply Hsupp; [apply update_bIndex_in_range|exact Hj].
Qed.

(** A belief degraded after the append was degraded before it. *)
Lemma update_degraded_before (i : Z) :
  0 <= i < r pomdp ->
  degraded pomdp (src_Gamma pomdp) (src_count pomdp)
           (update_appended w pomdp) (dst_count pomdp + 1) i = true ->
  degraded_now pomdp i = true.
Proof.
  intros Hi. destruct model as (Hn & Hr & Hrn & Hsupp).
  destruct update_appended_memcpy as (src & soff & -> & _).
  unfold degraded_now, degraded. rewrite !Qltb_lt. intros Hlt.
  eapply Qle_lt_trans; [|exact Hlt].
  apply append_value_grows; try assumption.
  - apply dst_row_free.
  - apply dst_Gamma_length.
  - intros j Hj. apply Hsupp; assumption.
Qed.

Lemma BTilde_set :
  exists bt, BTilde pomdp = Some bt /\ length bt = Z.to_nat (r pomdp).
Proof.
  destruct inv as ((_ & _ & _ & _ & HBT) & _).
  destruct model as (_ & Hr & _).
  destruct (BTilde pomdp) as [bt|]; [exists bt; auto|].
  simpl in HBT. lia.
Qed.

(** The update does not run out of memory, and BTilde is rebuilt to the
    beliefs still degraded, strictly fewer than before. *)
Lemma update_rebuilds_fewer :
  let kept :=
    filter (degraded pomdp (src_Gamma pomdp) (src_count pomdp)
                     (update_appended w pomdp) (dst_count pomdp + 1))
           (range (r pomdp)) in
  update_dst_count pomdp = dst_count pomdp + 1
  /\ (exists bt',
        update_BTilde w pomdp = (Some bt', Z.of_nat (length kept))
        /\ length bt' = Z.to_nat (r pomdp)
        /\ firstn (length kept) bt' = kept)
  /\ Z.of_nat (length kept) < rTilde pomdp.
Proof.
  cbv zeta.
  destruct model as (Hn & Hr & Hrn & Hsupp).
  pose proof dst_row_free as Hc.
  assert (Hcount : update_dst_count pomdp = dst_count pomdp + 1)
    by (unfold update_dst_count; apply u32_small; lia).
  split; [exact Hcount|]. split.
  - destruct BTilde_set as (bt & HBT & Hlen).
    unfold update_BTilde. rewrite HBT, update_dst_Gamma_deref, Hcount.
    destruct (rebuild_BTilde_filter pomdp (src_Gamma pomdp) (src_count pomdp)
                (update_appended w pomdp) (dst_count pomdp + 1) bt
                ltac:(lia) Hlen) as (bt' & H1 & H2 & H3).
    exists bt'. rewrite H2. auto.
  - destruct inv as ((_ & _ & _ & _ & HBT) & _ & _ & Ht & Hsum & Hnd & Hrange
                     & Hcover).
    assert (Hlen : length (active_beliefs pomdp) = Z.to_nat (rTilde pomdp)).
    { unfold active_beliefs. rewrite length_firstn. lia. }
    enough (length (filter (degraded pomdp (src_Gamma pomdp) (src_count pomdp)
                              (update_appended w pomdp) (dst_count pomdp + 1))
                           (range (r pomdp)))
            < length (active_beliefs pomdp))%nat by lia.
    apply (NoDup_strict_incl_length _ _ (update_bIndex w pomdp)).
    + apply NoDup_filter, range_NoDup.
    + intros i Hi. apply filter_In in Hi. destruct Hi as (Hi & Hdeg).
      apply In_range in Hi. apply Hcover; [exact Hi|].
      apply update_degraded_before; assumption.
    + apply update_bIndex_active.
    + intros Hin. apply filter_In in Hin. destruct Hin as (_ & Hdeg).
      rewrite update_settles_bIndex in Hdeg. discriminate.
Qed.

End UpdateInRange.

Lemma write_back_keep (pomdp : POMDP) (rG : Z) (GP : option (list Q))
    (piP : option (list Z)) (rGP : Z) (BT : option (list Z)) (rT : Z) :
  let after := write_back pomdp (currentHorizon pomdp) rG GP piP rGP BT rT in
  src_Gamma after = src_Gamma pomdp /\ dst_Gamma after = deref GP
  /\ src_count after = rG /\ dst_count after = rGP
  /\ BTilde after = BT /\ rTilde after = rT
  /\ currentHorizon after = currentHorizon pomdp.
Proof.
  unfold write_back, src_Gamma, dst_Gamma, src_Gamma_ptr, dst_Gamma_ptr,
    src_count, dst_count, horizon_even.
  destruct (currentHorizon pomdp mod 2 =? 0) eqn:Hev; cbn; rewrite Hev;
    repeat split; reflexivity.
Qed.

Lemma write_back_flip (pomdp : POMDP) (rG : Z) (GP : option (list Q))
    (piP : option (list Z)) (rGP : Z) (BT : option (list Z)) (rT : Z) :
  let after :=
    write_back pomdp (u32 (currentHorizon pomdp + 1)) rG GP piP rGP BT rT in
  src_Gamma after = deref GP /\ dst_Gamma after = src_Gamma pomdp
  /\ src_count after = rGP /\ dst_count after = rG
  /\ BTilde after = BT /\ rTilde after = rT
  /\ currentHorizon after = u32 (currentHorizon pomdp + 1).
Proof.
  pose proof (u32_succ_even (currentHorizon pomdp)) as Hpar.
  unfold write_back, src_Gamma, dst_Gamma, src_Gamma_ptr, dst_Gamma_ptr,
    src_count, dst_count, horizon_even.
  destruct (currentHorizon pomdp mod 2 =? 0) eqn:Hev; cbn; rewrite Hpar;
    repeat split; reflexivity.
Qed.

Lemma degraded_write_back (pomdp : POMDP) (cH rG : Z) (GP : option (list Q))
    (piP : option (list Z)) (rGP : Z) (BT : option (list Z)) (rT : Z)
    (Gs : list Q) (cs : Z) (Gd : list Q) (cd i : Z) :
  degraded (write_back pomdp cH rG GP piP rGP BT rT) Gs cs Gd cd i
  = degraded pomdp Gs cs Gd cd i.
Proof. unfold write_back. destruct (horizon_even pomdp); reflexivity. Qed.

Lemma model_ok_write_back (pomdp : POMDP) (cH rG : Z) (GP : option (list Q))
    (piP : option (list Z)) (rGP : Z) (BT : option (list Z)) (rT : Z) :
  model_ok pomdp -> model_ok (write_back pomdp cH rG GP piP rGP BT rT).
Proof. unfold write_back. destruct (horizon_even pomdp); exact (fun H => H). Qed.

Lemma write_back_r (pomdp : POMDP) (cH rG : Z) (GP : option (list Q))
    (piP : option (list Z)) (rGP : Z) (BT : option (list Z)) (rT : Z) :
  r (write_back pomdp cH rG GP piP rGP BT rT) = r pomdp.
Proof. unfold write_back. destruct (horizon_even pomdp); reflexivity. Qed.

(** The loop of lines 429-431 and of lines 223-225 lists all beliefs. *)
Lemma fill_BTilde_range (k : Z) (bt : list Z) :
  length bt = Z.to_nat k ->
  firstn (Z.to_nat k) (fold_left (fun BT i => wr BT i i) (range k) bt)
  = range k.
Proof.
  intros Hlen.
  assert (Hl : length (fold_left (fun BT i => wr BT i i) (range k) bt)
               = length bt)
    by apply (fold_wr_length (fun _ i => i) (fun _ i => i)).
  apply (nth_ext _ _ 0 0).
  - rewrite length_firstn, range_length, Hl. lia.
  - intros j Hj. rewrite length_firstn, Hl in Hj.
    rewrite nth_firstn. destruct (Nat.ltb_spec j (Z.to_nat k)); [|lia].
    pose proof (fold_wr_rd 0 (fun i _ => i) k bt (Z.of_nat j) ltac:(lia))
      as Hcell.
    unfold rd in Hcell. rewrite Nat2Z.id in Hcell. rewrite Hcell.
    destruct (Z.ltb_spec (Z.of_nat j) k); [|lia].
    destruct (Z.ltb_spec (Z.of_nat j) (Z.of_nat (length bt))); [|lia].
    simpl. unfold range.
    rewrite (nth_indep _ 0 (Z.of_nat 0)) by (rewrite length_map, length_seq; lia).
    rewrite map_nth, seq_nth by lia. reflexivity.
Qed.

(** While [rand()] stays below [RAND_MAX]: on a well-formed model, an
    update in a state that satisfies the invariant never returns
    OutOfMemory; it keeps the invariant (BTilde holds distinct beliefs of
    [0, r), both pools hold at most [r] vectors) and either returns Success
    in the same horizon with a strictly smaller [rTilde], or returns
    Converged with the horizon advanced and BTilde reset to all beliefs. *)
Theorem update_in_range_shrinks_BTilde (w : Indet) (pomdp : POMDP) :
  model_ok pomdp -> perseus_inv pomdp -> 0 <= rand_value w < RAND_MAX ->
  let result := fst (pomdp_perseus_update_cpu w pomdp) in
  let after := snd (pomdp_perseus_update_cpu w pomdp) in
  model_ok after /\ perseus_inv after
  /\ ((result = NOVA_SUCCESS
       /\ currentHorizon after = currentHorizon pomdp
       /\ rTilde after < rTilde pomdp)
      \/ (result = NOVA_CONVERGED
          /\ currentHorizon after = u32 (currentHorizon pomdp + 1)
          /\ rTilde after = r pomdp)).
Proof.
  intros Hmodel Hinv Hrand. cbv zeta.
  assert (Hshape : policy_pool_bounded (snd (pomdp_perseus_update_cpu w pomdp))).
  { apply update_bounded. destruct Hinv as (H1 & H2 & _). split; assumption. }
  destruct (update_rebuilds_fewer w pomdp Hmodel Hinv Hrand)
    as (Hcount & (bt' & HBT & Hlen' & Hfirst) & Hfewer).
  pose proof (dst_row_free pomdp Hinv) as Hrow.
  pose proof Hmodel as (Hn & Hr & Hrn & Hsupp).
  pose proof Hinv as (_ & Hsrc & Hdst & Ht & Hsum & _).
  revert Hshape. rewrite pomdp_perseus_update_cpu_eq, Hcount, HBT.
  cbn [fst snd].
  destruct (Z.ltb_spec (r pomdp) (dst_count pomdp + 1)); [lia|].
  set (kept := filter _ (range (r pomdp))) in *.
  destruct (Z.eqb_spec (Z.of_nat (length kept)) 0) as [Hzero|Hpos];
    cbn [fst snd]; intros (Hshape & Hsrc').
  - (* converged *)
    match goal with |- context [write_back ?p ?cH ?a ?b ?c ?d ?e ?f] =>
      destruct (write_back_flip p a b c d e f)
        as (E1 & E2 & E3 & E4 & E5 & E6 & E7);
      pose proof (write_back_r p cH a b c d e f) as Er;
      pose proof (model_ok_write_back p cH a b c d e f Hmodel) as Hm'
    end.
    cbv zeta in *. split; [exact Hm'|]. split.
    + unfold perseus_inv. split; [exact Hshape|].
      unfold active_beliefs, degraded_now.
      rewrite E1, E2, E3, E4, E5, E6, Er.
      cbn [reset_BTilde option_map deref].
      rewrite fill_BTilde_range by exact Hlen'.
      repeat split; try lia.
      * apply range_NoDup.
      * apply In_range in H0. lia.
      * apply In_range in H0. lia.
      * intros i Hi _. apply In_range. exact Hi.
    + right. rewrite E6, E7. auto.
  - (* success *)
    match goal with |- context [write_back ?p ?cH ?a ?b ?c ?d ?e ?f] =>
      destruct (write_back_keep p a b c d e f)
        as (E1 & E2 & E3 & E4 & E5 & E6 & E7);
      pose proof (write_back_r p cH a b c d e f) as Er;
      pose proof (model_ok_write_back p cH a b c d e f Hmodel) as Hm';
      pose proof (fun Gs cs Gd cd i =>
                    degraded_write_back p cH a b c d e f Gs cs Gd cd i) as Ed
    end.
    cbv zeta in *. split; [exact Hm'|]. split.
    + unfold perseus_inv. split; [exact Hshape|].
      unfold active_beliefs, degraded_now.
      rewrite E1, E2, E3, E4, E5, E6, Er.
      cbn [deref]. rewrite Nat2Z.id, Hfirst.
      repeat split; try lia.
      * apply NoDup_filter, range_NoDup.
      * apply filter_In in H0. destruct H0 as (H0 & _).
        apply In_range in H0. lia.
      * apply filter_In in H0. destruct H0 as (H0 & _).
        apply In_range in H0. lia.
      * intros i Hi Hdeg. apply filter_In. split; [apply In_range; exact Hi|].
        rewrite Ed, update_dst_Gamma_deref in Hdeg. exact Hdeg.
    + left. rewrite E6, E7. repeat split; try reflexivity. lia.
Qed.

Lemma initialize_inv (pomdp : POMDP) (initialGamma : option (list Q)) :
  model_ok pomdp ->
  model_ok (snd (pomdp_perseus_initialize_cpu pomdp initialGamma))
  /\ perseus_inv (snd (pomdp_perseus_initialize_cpu pomdp initialGamma)).
Proof.
  intros Hmodel. pose proof Hmodel as (Hn & Hr & Hrn & Hsupp).
  pose proof (initialize_bounded pomdp initialGamma ltac:(lia)) as (Hshape & _).
  revert Hshape. unfold pomdp_perseus_initialize_cpu.
  destruct (fold_left _ (range (r pomdp)) (new_uint (r pomdp), _))
    as [pi_ piP].
  cbn [snd]. intros Hshape. split; [exact Hmodel|].
  unfold perseus_inv, active_beliefs, degraded_now, src_count, dst_count,
    horizon_even.
  cbn [currentHorizon rGamma rGammaPrime rTilde BTilde r set_scratch deref].
  change (0 mod 2 =? 0) with true. cbv iota.
  rewrite fill_BTilde_range by apply new_uint_length.
  split; [exact Hshape|]. repeat split; try lia.
  - apply range_NoDup.
  - apply In_range in H. lia.
  - apply In_range in H. lia.
  - intros i Hi _. apply In_range. exact Hi.
Qed.

(** While every [rand()] stays below [RAND_MAX], every state of an
    initialized planner on a well-formed model satisfies the invariant. *)
Theorem in_range_state_inv (pomdp : POMDP) :
  in_range_state pomdp -> model_ok pomdp /\ perseus_inv pomdp.
Proof.
  induction 1 as [p ig Hm|w p Hp [IHm IHi] Hw].
  - apply initialize_inv. exact Hm.
  - destruct (update_in_range_shrinks_BTilde w p IHm IHi Hw) as (H1 & H2 & _).
    split; assumption.
Qed.

Lemma three_beliefs_model_ok : model_ok three_beliefs.
Proof.
  unfold model_ok. split; [vm_compute; discriminate|].
  split; [vm_compute; split; [discriminate|reflexivity]|].
  split; [vm_compute; reflexivity|].
  intros b j Hb Hj. apply In_range in Hj.
  change (r three_beliefs) with 3 in Hb. change (rz three_beliefs) with 1 in Hj.
  assert (Hj' : j = 0) by lia. subst j.
  assert (Hb' : b = 0 \/ b = 1 \/ b = 2) by lia.
  destruct Hb' as [-> | [-> | ->]]; vm_compute; reflexivity.
Qed.

Lemma three_beliefs_h1_in_range : in_range_state three_beliefs_h1.
Proof.
  unfold three_beliefs_h1. apply in_range_update.
  - apply in_range_init, three_beliefs_model_ok.
  - vm_compute. split; [discriminate|reflexivity].
Qed.

(** The theorem at work on [three_beliefs] in horizon 1, belief 0 sampled:
    BTilde shrinks from three beliefs to one. *)
Lemma update_in_range_shrinks_BTilde_witness :
  fst (pomdp_perseus_update_cpu (outside 0) three_beliefs_h1) = NOVA_SUCCESS
  /\ currentHorizon three_beliefs_h1_u1 = currentHorizon three_beliefs_h1
  /\ rTilde three_beliefs_h1_u1 < rTilde three_beliefs_h1.
Proof.
  destruct (in_range_state_inv _ three_beliefs_h1_in_range) as (Hm & Hi).
  destruct (update_in_range_shrinks_BTilde (outside 0) three_beliefs_h1 Hm Hi)
    as (_ & _ & [H|(H & _)]).
  - vm_compute. split; [discriminate|reflexivity].
  - exact H.
  - vm_compute in H. discriminate H.
Defined.



(** ... and no update returns OutOfMemory. *)
Corollary in_range_update_not_out_of_memory (w : Indet) (pomdp : POMDP) :
  in_range_state pomdp -> 0 <= rand_value w < RAND_MAX ->
  fst (pomdp_perseus_update_cpu w pomdp) <> NOVA_ERROR_OUT_OF_MEMORY.
Proof.
  intros H Hw. destruct (in_range_state_inv pomdp H) as (Hm & Hi).
  destruct (update_in_range_shrinks_BTilde w pomdp Hm Hi Hw)
    as (_ & _ & [(-> & _)|(-> & _)]); discriminate.
Qed.



(** ** BTilde when [rand()] returns [RAND_MAX] *)

(** C2 on [three_beliefs] in horizon 1, [rand()] returning [RAND_MAX]: the
    update reads [BTilde[rTilde]], a belief that is no longer in BTilde,
    returns Success within the same horizon and leaves [rTilde] at 1. *)
Theorem BTilde_does_not_shrink_at_RAND_MAX :
  rTilde three_beliefs_h1_u1 = 1
  /\ firstn 1 (deref (BTilde three_beliefs_h1_u1)) = [2]
  /\ update_bIndex (outside RAND_MAX) three_beliefs_h1_u1 = 1
  /\ pomdp_perseus_update_cpu (outside RAND_MAX) three_beliefs_h1_u1
     = (NOVA_SUCCESS, three_beliefs_h1_u2)
  /\ currentHorizon three_beliefs_h1_u2 = currentHorizon three_beliefs_h1_u1
  /\ rTilde three_beliefs_h1_u2 = 1.
Proof. repeat split; vm_compute; reflexivity. Qed.

(** ** Out of memory *)

(** C3 on a full destination pool: the update stores the vector past the
    pool, raises the count to [r + 1] and only then returns OutOfMemory. *)
Theorem update_count_exceeds_r (w : Indet) (pomdp : POMDP) :
  0 <= r pomdp < 4294967295 ->
  dst_count pomdp = r pomdp ->
  fst (pomdp_perseus_update_cpu w pomdp) = NOVA_ERROR_OUT_OF_MEMORY
  /\ written_count pomdp (snd (pomdp_perseus_update_cpu w pomdp))
     = r pomdp + 1.
Proof.
  intros Hr Hfull.
  destruct (update_written w pomdp) as (_ & _ & Hc). cbv zeta in Hc.
  rewrite Hc, Hfull, u32_small by lia. split; [|reflexivity].
  rewrite pomdp_perseus_update_cpu_eq. unfold update_dst_count.
  rewrite Hfull, u32_small by lia.
  destruct (Z.ltb_spec (r pomdp) (r pomdp + 1)); [reflexivity|lia].
Qed.

Lemma update_count_exceeds_r_witness :
  fst (pomdp_perseus_update_cpu (outside RAND_MAX) three_beliefs_h1_u3)
  = NOVA_ERROR_OUT_OF_MEMORY
  /\ written_count three_beliefs_h1_u3 three_beliefs_h1_u4 = 3 + 1.
Proof.
  apply (update_count_exceeds_r (outside RAND_MAX) three_beliefs_h1_u3).
  - vm_compute. split; [discriminate|reflexivity].
  - vm_compute. reflexivity.
Defined.

(** ** The error path of execute *)

Lemma is_null_option_map {A B : Type} (f : A -> B) (ptr : option A) :
  is_null (option_map f ptr) = is_null ptr.
Proof. destruct ptr; reflexivity. Qed.

Lemma rebuild_BTilde_is_null (pomdp : POMDP) (Gsrc : list Q) (rsrc : Z)
    (Gdst : list Q) (rdst : Z) (BT : option (list Z)) :
  is_null (fst (rebuild_BTilde pomdp Gsrc rsrc Gdst rdst BT)) = is_null BT.
Proof.
  unfold rebuild_BTilde. generalize 0 at 2. generalize (range (r pomdp)).
  intros l. revert BT. induction l as [|i l IH]; intros BT c; simpl.
  - reflexivity.
  - destruct (pomdp_perseus_compute_Vb_cpu pomdp i Gsrc rsrc 0) as [Vnb act].
    destruct (pomdp_perseus_compute_Vb_cpu pomdp i Gdst rdst act) as [Vnp1b ?].
    destruct (Qltb Vnp1b Vnb); simpl.
    + rewrite IH. apply is_null_option_map.
    + apply IH.
Qed.

Lemma initialize_allocates (pomdp : POMDP) (initialGamma : option (list Q)) :
  scratch_allocated (snd (pomdp_perseus_initialize_cpu pomdp initialGamma)).
Proof.
  unfold pomdp_perseus_initialize_cpu.
  destruct (fold_left _ (range (r pomdp)) (new_uint (r pomdp), _)).
  intros []; reflexivity.
Qed.

Lemma update_keeps_allocated (w : Indet) (pomdp : POMDP) :
  scratch_allocated pomdp ->
  scratch_allocated (snd (pomdp_perseus_update_cpu w pomdp)).
Proof.
  intros H.
  pose proof (H ScratchGamma) as HG. pose proof (H ScratchGammaPrime) as HGP.
  pose proof (H ScratchPi) as Hpi. pose proof (H ScratchPiPrime) as HpiP.
  pose proof (H ScratchBTilde) as HBT. clear H.
  pose proof (rebuild_BTilde_is_null pomdp (src_Gamma pomdp) (src_count pomdp)
                (deref (update_dst_Gamma w pomdp)) (update_dst_count pomdp)
                (BTilde pomdp)) as HR.
  fold (update_BTilde w pomdp) in HR.
  rewrite pomdp_perseus_update_cpu_eq.
  unfold write_back, update_dst_Gamma, update_dst_pi, reset_BTilde,
    dst_Gamma_ptr, dst_pi_ptr, scratch_ptr_set in *.
  destruct (_ <? _); [|destruct (_ =? 0)];
    destruct (horizon_even pomdp); intros []; cbn;
    rewrite ?is_null_option_map, ?HR; assumption.
Qed.

Lemma update_until_converged_allocated (ws ws' : list Indet)
    (pomdp pomdp' : POMDP) (result : Status) :
  scratch_allocated pomdp ->
  update_until_converged ws pomdp = Some (result, pomdp', ws') ->
  scratch_allocated pomdp'.
Proof.
  revert pomdp. induction ws as [|w ws IH]; intros pomdp Ha; simpl.
  - discriminate.
  - pose proof (update_keeps_allocated w pomdp Ha) as Ha'.
    destruct (pomdp_perseus_update_cpu w pomdp) as [res p1]. cbn [snd] in Ha'.
    destruct (is_error res); [intros [= <- <- <-]; exact Ha'|].
    destruct (Status_eqb res NOVA_CONVERGED);
      [intros [= <- <- <-]; exact Ha'|].
    apply IH. exact Ha'.
Qed.

Lemma execute_horizons_allocated (fuel : nat) (ws : list Indet)
    (pomdp pomdp' : POMDP) (result : Status) :
  scratch_allocated pomdp ->
  execute_horizons fuel ws pomdp = Some (result, pomdp') ->
  scratch_allocated pomdp'.
Proof.
  revert ws pomdp. induction fuel as [|fuel IH]; intros ws pomdp Ha; simpl.
  - discriminate.
  - destruct (currentHorizon pomdp <? horizon pomdp);
      [|intros [= <- <-]; exact Ha].
    destruct (update_until_converged ws pomdp) as [[[res p1] ws1]|] eqn:Hu;
      [|discriminate].
    pose proof (update_until_converged_allocated _ _ _ _ _ Ha Hu) as Ha1.
    destruct (is_error res); [intros [= <- <-]; exact Ha1|].
    apply IH. exact Ha1.
Qed.

(** C4 at an OutOfMemory exit: when execute returns OutOfMemory, the five
    scratch arrays are all still allocated and no policy was handed out;
    [uninitialize] was not performed. *)
Theorem execute_out_of_memory_releases_nothing (ws : list Indet)
    (pomdp pomdp' : POMDP) (initialGamma : option (list Q))
    (policy policy' : option POMDPAlphaVectors) :
  pomdp_perseus_execute_cpu ws pomdp initialGamma policy
  = Some (NOVA_ERROR_OUT_OF_MEMORY, pomdp', policy') ->
  scratch_allocated pomdp' /\ policy' = policy.
Proof.
  unfold pomdp_perseus_execute_cpu.
  destruct (_ || _); [discriminate|].
  pose proof (initialize_allocates pomdp initialGamma) as Ha.
  assert (Hs : fst (pomdp_perseus_initialize_cpu pomdp initialGamma)
               = NOVA_SUCCESS).
  { unfold pomdp_perseus_initialize_cpu.
    destruct (fold_left _ (range (r pomdp)) (new_uint (r pomdp), _)).
    reflexivity. }
  destruct (pomdp_perseus_initialize_cpu pomdp initialGamma) as [res p0].
  cbn [fst snd] in *. subst res. cbn [Status_eqb negb].
  destruct (execute_horizons (S (length ws)) ws p0) as [[res p1]|] eqn:Hh;
    [|discriminate].
  pose proof (execute_horizons_allocated _ _ _ _ _ Ha Hh) as Ha1.
  destruct (is_error res).
  - intros [= -> <- <-]. split; [exact Ha1|reflexivity].
  - unfold pomdp_perseus_get_policy_cpu.
    destruct (negb (is_null policy)); cbn [Status_eqb negb];
      [discriminate|].
    destruct (_ =? 0); cbn [Status_eqb negb pomdp_perseus_uninitialize_cpu];
      discriminate.
Qed.

Lemma execute_out_of_memory_releases_nothing_witness :
  pomdp_perseus_execute_cpu stalling_run three_beliefs zero_Gamma None
  = Some (NOVA_ERROR_OUT_OF_MEMORY, three_beliefs_h1_u4, None)
  /\ scratch_allocated three_beliefs_h1_u4.
Proof.
  assert (H : pomdp_perseus_execute_cpu stalling_run three_beliefs zero_Gamma
                None
              = Some (NOVA_ERROR_OUT_OF_MEMORY, three_beliefs_h1_u4, None))
    by (vm_compute; reflexivity).
  split; [exact H|].
  exact (proj1 (execute_out_of_memory_releases_nothing _ _ _ _ _ _ H)).
Defined.

(** ** More on the value-at-belief reduction *)

(** X1: whatever the pool, [pomdp_perseus_compute_Vb_cpu] returns a value
    that is at least [FLT_MIN] and at least the score of every vector; the
    value is [FLT_MIN] with the caller's index left as it was (always so
    for an empty pool), or it exceeds [FLT_MIN] and is the score of the
    vector whose index is returned, an index below [rGamma]. *)
Theorem compute_Vb_value_and_index (pomdp : POMDP) (bIndex : Z)
    (G : list Q) (c idx0 : Z) :
  let st := pomdp_perseus_compute_Vb_cpu pomdp bIndex G c idx0 in
  (FLT_MIN <= fst st)%Q
  /\ (forall j, 0 <= j < c -> (score pomdp bIndex G j <= fst st)%Q)
  /\ (c <= 0 -> st = (FLT_MIN, idx0))
  /\ (st = (FLT_MIN, idx0)
      \/ (0 <= snd st < c /\ fst st = score pomdp bIndex G (snd st)
          /\ (FLT_MIN < fst st)%Q)).
Proof.
  cbv zeta.
  destruct (compute_Vb_bounds pomdp bIndex G c idx0) as (Hmin & Hall & _).
  split; [exact Hmin|]. split; [exact Hall|]. split.
  - intros Hc. unfold pomdp_perseus_compute_Vb_cpu, range.
    replace (Z.to_nat c) with 0%nat by lia. reflexivity.
  - destruct (Z.le_gt_cases c 0) as [Hc|Hc].
    + left. unfold pomdp_perseus_compute_Vb_cpu, range.
      replace (Z.to_nat c) with 0%nat by lia. reflexivity.
    + rewrite <- (Z2Nat.id c) by lia. clear Hmin Hall Hc.
      induction (Z.to_nat c) as [|k IH].
      * left. reflexivity.
      * rewrite compute_Vb_succ. cbv zeta.
        destruct (Qltb _ (score pomdp bIndex G (Z.of_nat k))) eqn:Hlt.
        -- right. cbn [fst snd]. apply Qltb_lt in Hlt.
           split; [lia|]. split; [reflexivity|].
           eapply Qle_lt_trans; [|exact Hlt].
           apply (compute_Vb_bounds pomdp bIndex G (Z.of_nat k) idx0).
        -- destruct IH as [IH|(Hi & Hv & Hgt)]; [left; exact IH|].
           right. split; [lia|]. split; assumption.
Qed.

(** X2: when some vector of the pool scores above [FLT_MIN] at the belief,
    [pomdp_perseus_compute_Vb_cpu] returns the maximum score and the
    smallest index that attains it. *)
Theorem compute_Vb_first_argmax (pomdp : POMDP) (bIndex : Z) (G : list Q)
    (c idx0 : Z) :
  (exists j, 0 <= j < c /\ (FLT_MIN < score pomdp bIndex G j)%Q) ->
  first_argmax pomdp bIndex G c
    (fst (pomdp_perseus_compute_Vb_cpu pomdp bIndex G c idx0))
    (snd (pomdp_perseus_compute_Vb_cpu pomdp bIndex G c idx0)).
Proof.
  intros Hj.
  destruct (compute_Vb_sentinel_agree pomdp bIndex G c idx0 Hj)
    as (v & i & Hcode & Hinf).
  assert (Hc : 0 < c) by (destruct Hj as (j & Hj & _); lia).
  destruct (compute_Vb_neg_inf_first_argmax pomdp bIndex G c idx0 Hc)
    as (v' & i' & Hinf' & Hfirst).
  rewrite Hinf in Hinf'. injection Hinf' as -> ->.
  rewrite Hcode. exact Hfirst.
Qed.

Lemma compute_Vb_first_argmax_witness :
  first_argmax costly 0 [-2; -2; 3; 3; 3; 3]%Q 3
    (fst (pomdp_perseus_compute_Vb_cpu costly 0 [-2; -2; 3; 3; 3; 3]%Q 3 7))
    (snd (pomdp_perseus_compute_Vb_cpu costly 0 [-2; -2; 3; 3; 3; 3]%Q 3 7)).
Proof.
  apply (compute_Vb_first_argmax costly 0 [-2; -2; 3; 3; 3; 3]%Q 3 7).
  exists 2. split; [lia|]. vm_compute. reflexivity.
Defined.

(** ** More on one update *)









(** ** Runs in which rand() stays below RAND_MAX *)








(** ** Complete runs *)







(** ** The statuses of a run *)






(** ** The sparse dot product *)

Lemma range_split (k c : Z) :
  0 <= k <= c ->
  range c = range k ++ map (fun i => k + i) (range (c - k)).
Proof.
  intros H. unfold range.
  replace (Z.to_nat c) with (Z.to_nat k + Z.to_nat (c - k))%nat by lia.
  rewrite seq_app, map_app. f_equal. cbn [Nat.add].
  generalize (Z.to_nat (c - k)). intros len.
  rewrite <- (Nat.add_0_r (Z.to_nat k)).
  generalize 0%nat. induction len as [|len IH]; intros s; [reflexivity|].
  cbn [seq map]. f_equal; [lia|].
  replace (S (Z.to_nat k + s)) with (Z.to_nat k + S s)%nat by lia. apply IH.
Qed.

Lemma b_dot_alpha_loop_prefix (pomdp : POMDP) (bIndex : Z) (arr : list Q)
    (off : Z) (l1 l2 : list Z) (acc : Q) :
  (forall j, In j l1 -> 0 <= Z_at pomdp bIndex j) ->
  (l2 = [] \/ exists j l2', l2 = j :: l2' /\ Z_at pomdp bIndex j < 0) ->
  b_dot_alpha_loop pomdp bIndex arr off (l1 ++ l2) acc
  = fold_left (fun acc j => (acc + B_at pomdp bIndex j
                                   * qrd arr (off + Z_at pomdp bIndex j))%Q)
              l1 acc.
Proof.
  intros H1 H2. revert acc H1.
  induction l1 as [|j l1 IH]; intros acc H1; cbn [app fold_left].
  - destruct H2 as [->|(j & l2' & -> & Hneg)]; [reflexivity|].
    cbn [b_dot_alpha_loop].
    destruct (Z.ltb_spec (Z_at pomdp bIndex j) 0); [reflexivity|lia].
  - cbn [b_dot_alpha_loop].
    destruct (Z.ltb_spec (Z_at pomdp bIndex j) 0) as [Hneg|_].
    + specialize (H1 j (or_introl eq_refl)). lia.
    + apply IH. intros i Hi. apply H1. right. exact Hi.
Qed.

(** X11: [pomdp_perseus_compute_b_dot_alpha_cpu] is the dot product of
    the sparse belief with the vector at [&arr[off]]: when the first [k]
    cells of row [bIndex] of [Z] are states and the row ends there, at
    [rz] cells or at a negative cell, the result is the sum over these [k]
    cells of [B[bIndex, j] * arr[off + Z[bIndex, j]]]; nothing after a
    negative cell is read. *)
Theorem b_dot_alpha_sparse_sum (pomdp : POMDP) (bIndex : Z) (arr : list Q)
    (off k : Z) :
  0 <= k <= rz pomdp ->
  (forall j, 0 <= j < k -> 0 <= Z_at pomdp bIndex j) ->
  k = rz pomdp \/ Z_at pomdp bIndex k < 0 ->
  pomdp_perseus_compute_b_dot_alpha_cpu pomdp bIndex arr off
  = qsum (fun j => B_at pomdp bIndex j
                   * qrd arr (off + Z_at pomdp bIndex j))%Q (range k).
Proof.
  intros Hk Hpos Hend. unfold pomdp_perseus_compute_b_dot_alpha_cpu, qsum.
  rewrite (range_split k (rz pomdp)) by exact Hk.
  apply b_dot_alpha_loop_prefix.
  - intros j Hj. apply Hpos. apply In_range. exact Hj.
  - destruct (Z.eq_dec k (rz pomdp)) as [->|Hne].
    + left. rewrite Z.sub_diag. reflexivity.
    + right. destruct Hend as [Hend|Hend]; [contradiction|].
      replace (rz pomdp - k) with (Z.of_nat (S (Z.to_nat (rz pomdp - k - 1))))
        by lia.
      unfold range at 1. rewrite Nat2Z.id. cbn [seq map].
      eexists _, _. split; [reflexivity|].
      replace (k + Z.of_nat 0) with k by lia. exact Hend.
Qed.

Lemma b_dot_alpha_sparse_sum_witness :
  pomdp_perseus_compute_b_dot_alpha_cpu three_beliefs 1 [5; 7; 9]%Q 0
  = qsum (fun j => B_at three_beliefs 1 j
                   * qrd [5; 7; 9]%Q (0 + Z_at three_beliefs 1 j))%Q (range 1).
Proof.
  apply (b_dot_alpha_sparse_sum three_beliefs 1 [5; 7; 9]%Q 0 1).
  - vm_compute. split; discriminate.
  - intros j Hj. assert (j = 0) as -> by lia. vm_compute. discriminate.
  - left. reflexivity.
Defined.

(** ** The actions of the pools *)









(** ** The observation model of the belief kernels *)

Section Observations.

Variable pomdp : POMDP.
Variables (b : list Q) (a : Z).

Hypothesis successors_are_states :
  forall s i, In s (range (n pomdp)) -> In i (range (ns pomdp)) ->
              S_at pomdp s a i < n pomdp.

Lemma probability_observation_qsum (o : Z) :
  snd (pomdp_expand_probability_observation pomdp b a o)
  = qsum (fun s => probability_observation_row pomdp a o s
                     (range (ns pomdp)) 0 * qrd b s)%Q (range (n pomdp)).
Proof. reflexivity. Qed.

(** The probability of the observation as a sum over the successors. *)
Lemma probability_observation_by_successor (o : Z) :
  (snd (pomdp_expand_probability_observation pomdp b a o)
   == qsum (fun sp =>
        O_at pomdp a sp o
        * qsum (fun s => transition_mass pomdp a s sp (range (ns pomdp)) 0
                         * qrd b s) (range (n pomdp)))
           (range (n pomdp)))%Q.
Proof.
  rewrite probability_observation_qsum.
  assert (Hobs :
    (qsum (fun s => probability_observation_row pomdp a o s
                      (range (ns pomdp)) 0 * qrd b s) (range (n pomdp))
     == qsum (fun s =>
          qsum (fun sp => O_at pomdp a sp o
                          * transition_mass pomdp a s sp (range (ns pomdp)) 0
                          * qrd b s) (range (n pomdp)))
             (range (n pomdp)))%Q).
  { apply qsum_ext. intros s Hs.
    rewrite (probability_observation_row_by_successor pomdp a o)
      by (intros; apply successors_are_states; assumption).
    rewrite <- qsum_scale_r. reflexivity. }
  rewrite Hobs, qsum_swap. apply qsum_ext. intros sp Hsp.
  rewrite <- qsum_scale_l. apply qsum_ext. intros s _. ring.
Qed.

(** X13: the observation probabilities form a distribution scaled by
    the mass of the belief.  When every successor listed in [S] under [a]
    is a state, every row of [O] under [a] sums to 1 over the observations
    and the transition probabilities out of every state sum to 1, the sum
    over the observations [o] of what
    [pomdp_expand_probability_observation] computes for [o] is the sum of
    the cells of [b]: 1 for a normalized belief. *)
Theorem probability_observation_total :
  (forall sp, In sp (range (n pomdp)) ->
              (qsum (fun o => O_at pomdp a sp o) (range (z pomdp)) == 1)%Q) ->
  (forall s, In s (range (n pomdp)) ->
             (qsum (fun sp => transition_mass pomdp a s sp (range (ns pomdp)) 0)
                   (range (n pomdp)) == 1)%Q) ->
  (qsum (fun o => snd (pomdp_expand_probability_observation pomdp b a o))
        (range (z pomdp))
   == sum_cells (n pomdp) b)%Q.
Proof.
  intros HO HT.
  assert (H1 :
    (qsum (fun o => snd (pomdp_expand_probability_observation pomdp b a o))
          (range (z pomdp))
     == qsum (fun o =>
          qsum (fun sp =>
            O_at pomdp a sp o
            * qsum (fun s => transition_mass pomdp a s sp (range (ns pomdp)) 0
                             * qrd b s) (range (n pomdp)))
               (range (n pomdp)))
             (range (z pomdp)))%Q).
  { apply qsum_ext. intros o _. apply probability_observation_by_successor. }
  rewrite H1, qsum_swap. clear H1.
  assert (H2 :
    (qsum (fun sp =>
       qsum (fun o =>
         O_at pomdp a sp o
         * qsum (fun s => transition_mass pomdp a s sp (range (ns pomdp)) 0
                          * qrd b s) (range (n pomdp)))
            (range (z pomdp)))
          (range (n pomdp))
     == qsum (fun sp =>
          qsum (fun s => transition_mass pomdp a s sp (range (ns pomdp)) 0
                         * qrd b s) (range (n pomdp)))
             (range (n pomdp)))%Q).
  { apply qsum_ext. intros sp Hsp. rewrite qsum_scale_r, (HO sp Hsp). ring. }
  rewrite H2, qsum_swap. clear H2.
  unfold sum_cells.
  change (fold_left (fun acc sp => (acc + qrd b sp)%Q) (range (n pomdp)) 0%Q)
    with (qsum (qrd b) (range (n pomdp))).
  apply qsum_ext. intros s Hs. rewrite qsum_scale_r, (HT s Hs). ring.
Qed.

End Observations.

Lemma probability_observation_total_witness :
  (qsum (fun o => snd (pomdp_expand_probability_observation listen
                         [1 # 3; 2 # 3] 0 o))
        (range (z listen))
   == sum_cells (n listen) [1 # 3; 2 # 3])%Q.
Proof.
  apply (probability_observation_total listen [1 # 3; 2 # 3]%Q 0).
  - intros s i Hs Hi. apply In_range in Hs. apply In_range in Hi.
    change (n listen) with 2 in *. change (ns listen) with 2 in *.
    assert (Hs' : s = 0 \/ s = 1) by lia.
    assert (Hi' : i = 0 \/ i = 1) by lia.
    destruct Hs' as [-> | ->], Hi' as [-> | ->]; vm_compute; reflexivity.
  - intros sp Hsp. apply In_range in Hsp. change (n listen) with 2 in Hsp.
    assert (Hsp' : sp = 0 \/ sp = 1) by lia.
    destruct Hsp' as [-> | ->]; vm_compute; reflexivity.
  - intros s Hs. apply In_range in Hs. change (n listen) with 2 in Hs.
    assert (Hs' : s = 0 \/ s = 1) by lia.
    destruct Hs' as [-> | ->]; vm_compute; reflexivity.
Defined.

(** ** The belief update is Bayes' rule *)

Section BayesRule.

Variable pomdp : POMDP.
Variables (b : list Q) (a o : Z).

Hypothesis successors_are_states :
  forall s i, In s (range (n pomdp)) -> In i (range (ns pomdp)) ->
              S_at pomdp s a i < n pomdp.




End BayesRule.


(** ** The state initialize builds *)

Lemma zero_fill_pair (l : list Z) (a b : list Z) :
  fold_left (fun st i => (wr (fst st) i 0, wr (snd st) i 0)) l (a, b)
  = (fold_left (fun acc i => wr acc i 0) l a,
     fold_left (fun acc i => wr acc i 0) l b).
Proof.
  revert a b. induction l as [|i l IH]; intros a b; cbn [fold_left fst snd];
    [reflexivity|]. apply IH.
Qed.

Lemma zero_fill_new_uint (k : Z) :
  fold_left (fun acc i => wr acc i 0) (range k) (new_uint k) = new_uint k.
Proof.
  apply (nth_ext _ _ 0 0).
  - apply (fold_wr_length (fun _ j => j) (fun _ _ => 0)).
  - intros j _.
    assert (Hz : forall i, nth i (new_uint k) 0 = 0).
    { intros i. destruct (nth_in_or_default i (new_uint k) 0) as [Hin|E];
        [|exact E].
      unfold new_uint in Hin at 2. apply in_map_iff in Hin.
      destruct Hin as (_ & E & _). symmetry. exact E. }
    pose proof (fold_wr_rd 0 (fun _ _ => 0) k (new_uint k) (Z.of_nat j)
                  ltac:(lia)) as H.
    unfold rd in H. rewrite Nat2Z.id in H. rewrite H, Hz.
    destruct (_ && _); reflexivity.
Qed.

(** X15: the state [pomdp_perseus_initialize_cpu] builds, given an
    initial pool of [r * n] cells at least: it returns Success in horizon
    0 with both pools holding the first [r * n] cells of the initial pool
    and counted empty, all actions 0, and BTilde holding every belief
    0, ..., [r - 1] in order with [rTilde = r]; nothing but the scratch
    state of the object changes. *)
Theorem initialize_postcondition (pomdp : POMDP)
    (initialGamma : option (list Q)) :
  (Z.to_nat (u32 (r pomdp * n pomdp)) <= length (deref initialGamma))%nat ->
  let st := pomdp_perseus_initialize_cpu pomdp initialGamma in
  fst st = NOVA_SUCCESS
  /\ currentHorizon (snd st) = 0
  /\ rGamma (snd st) = 0 /\ rGammaPrime (snd st) = 0
  /\ Gamma (snd st)
     = Some (firstn (Z.to_nat (u32 (r pomdp * n pomdp))) (deref initialGamma))
  /\ GammaPrime (snd st) = Gamma (snd st)
  /\ pi (snd st) = Some (new_uint (r pomdp))
  /\ piPrime (snd st) = Some (new_uint (r pomdp))
  /\ BTilde (snd st) = Some (range (r pomdp))
  /\ rTilde (snd st) = r pomdp
  /\ released (snd st) = released pomdp.
Proof.
  intros Hlen. unfold pomdp_perseus_initialize_cpu.
  rewrite zero_fill_pair, zero_fill_new_uint.
  cbn [fst snd currentHorizon rGamma rGammaPrime Gamma GammaPrime pi piPrime
       BTilde rTilde set_scratch].
  rewrite memcpy_firstn by (rewrite ?new_float_length; auto).
  assert (HBT : fold_left (fun BT i => wr BT i i) (range (r pomdp))
                          (new_uint (r pomdp)) = range (r pomdp)).
  { pose proof (fill_BTilde_range (r pomdp) (new_uint (r pomdp))
                  (new_uint_length _)) as Hfill.
    rewrite firstn_all2 in Hfill; [exact Hfill|].
    rewrite (fold_wr_length (fun _ j => j) (fun _ j => j)), new_uint_length.
    lia. }
  rewrite HBT. repeat split; reflexivity.
Qed.

Lemma initialize_postcondition_witness :
  BTilde (snd (pomdp_perseus_initialize_cpu three_beliefs zero_Gamma))
  = Some (range (r three_beliefs)).
Proof.
  apply (initialize_postcondition three_beliefs zero_Gamma).
  apply Nat.leb_le. vm_compute. reflexivity.
Defined.

(** ** Random expansion *)

Lemma expand_count_nonzero_bounds (pomdp : POMDP) (b : list Q) :
  0 <= n pomdp -> 0 <= expand_count_nonzero pomdp b <= n pomdp.
Proof.
  intros Hn. unfold expand_count_nonzero.
  assert (Hgen : forall l c, 0 <= c ->
    0 <= fold_left (fun c s => if Qltb 0 (qrd b s) then u32 (c + 1) else c) l c
      <= c + Z.of_nat (length l)).
  { induction l as [|s l IH]; intros c Hc; cbn [fold_left length]; [lia|].
    pose proof (u32_nonneg (c + 1)) as H1.
    assert (H2 : u32 (c + 1) <= c + 1)
      by (unfold u32; apply Z.mod_le; lia).
    destruct (Qltb 0 (qrd b s)).
    - specialize (IH (u32 (c + 1)) ltac:(lia)). lia.
    - specialize (IH c Hc). lia. }
  specialize (Hgen (range (n pomdp)) 0 ltac:(lia)).
  rewrite range_length in Hgen. lia.
Qed.

(** One trajectory: the counter advances, the maximum grows within [n],
    and [Bnew] keeps its length and its cells from
    [numDesiredBeliefPoints * n] on. *)
Lemma expand_trajectory_invariants (pomdp : POMDP) (N : Z) (ts : list Z) :
  0 <= n pomdp -> N < 4294967296 -> N * n pomdp < 4294967296 ->
  forall (b : list Q) (i mx : Z) (Bnew : list Q) (rands : list Z)
         (b' : list Q) (i' mx' : Z) (Bnew' : list Q) (rands' : list Z),
    0 <= i < N ->
    expand_trajectory pomdp N ts b i mx Bnew rands
    = Some (b', i', mx', Bnew', rands') ->
    i <= i' /\ mx <= mx' /\ (mx' = mx \/ mx' <= n pomdp)
    /\ length Bnew' = length Bnew
    /\ (forall k, N * n pomdp <= k -> qrd Bnew' k = qrd Bnew k)
    /\ (length rands' <= length rands)%nat
    /\ (i = i' \/ 2 + length rands' <= length rands)%nat.
Proof.
  intros Hn HN32 HN. induction ts as [|t ts IH];
    intros b i mx Bnew rands b' i' mx' Bnew' rands' Hi E;
    cbn [expand_trajectory] in E.
  - injection E as <- <- <- <- <-. repeat split; auto; lia.
  - destruct rands as [|ra [|rt rands0]]; try discriminate E.
    cbv zeta in E.
    set (bb := memcpy 0%Q b 0 _ 0 (n pomdp)) in E.
    pose proof (expand_count_nonzero_bounds pomdp bb Hn) as Hc.
    set (mx1 := if mx <? expand_count_nonzero pomdp bb
                then expand_count_nonzero pomdp bb else mx) in E.
    assert (Hmx1 : mx <= mx1 /\ (mx1 = mx \/ mx1 <= n pomdp)).
    { subst mx1. destruct (Z.ltb_spec mx (expand_count_nonzero pomdp bb)); lia. }
    set (Bnew1 := memcpy 0%Q Bnew (u32 (i * n pomdp)) bb 0 (n pomdp)) in E.
    assert (Hoff : u32 (i * n pomdp) = i * n pomdp)
      by (apply u32_small; nia).
    assert (HB1 : length Bnew1 = length Bnew) by apply memcpy_length.
    assert (HB1c : forall k, N * n pomdp <= k -> qrd Bnew1 k = qrd Bnew k).
    { intros k Hk. subst Bnew1. unfold qrd, rd. rewrite Hoff.
      rewrite memcpy_nth by nia.
      destruct (Nat.ltb_spec (Z.to_nat k)
                  (Z.to_nat (i * n pomdp) + Z.to_nat (n pomdp)));
        [nia|].
      rewrite andb_false_r. reflexivity. }
    assert (Hi1 : u32 (i + 1) = i + 1) by (apply u32_small; nia).
    rewrite Hi1 in E.
    destruct (Z.leb_spec N (i + 1)).
    + injection E as <- <- <- <- <-. cbn [length].
      split; [lia|]. split; [lia|]. split; [tauto|]. split; [exact HB1|].
      split; [exact HB1c|]. split; [lia|]. right. lia.
    + apply IH in E; [|lia].
      destruct E as (E1 & E2 & E3 & E4 & E5 & E6 & E7). cbn [length].
      split; [lia|]. split; [lia|]. split; [lia|].
      split; [rewrite E4; exact HB1|].
      split; [intros k Hk; rewrite E5 by exact Hk; apply HB1c; exact Hk|].
      split; [lia|]. right. lia.
Qed.

Lemma expand_trajectories_invariants (pomdp : POMDP) (N : Z) (b0 : list Q)
    (fuel : nat) :
  0 <= n pomdp -> N < 4294967296 -> N * n pomdp < 4294967296 ->
  forall (b : list Q) (i mx : Z) (Bnew : list Q) (rands : list Z)
         (mx' : Z) (Bnew' : list Q),
    0 <= i ->
    expand_trajectories fuel pomdp N b0 b i mx Bnew rands = Some (mx', Bnew') ->
    mx <= mx' /\ (mx' = mx \/ mx' <= n pomdp)
    /\ length Bnew' = length Bnew
    /\ (forall k, N * n pomdp <= k -> qrd Bnew' k = qrd Bnew k).
Proof.
  intros Hn HN32 HN. induction fuel as [|fuel IH];
    intros b i mx Bnew rands mx' Bnew' Hi E; [discriminate E|].
  cbn [expand_trajectories] in E.
  destruct (Z.ltb_spec i N).
  - destruct rands as [|rh rands0]; [discriminate E|]. cbv zeta in E.
    destruct (expand_trajectory pomdp N _ _ i mx Bnew rands0)
      as [[[[[b1 i1] mx1] Bnew1] rands1]|] eqn:Et; [|discriminate E].
    apply (expand_trajectory_invariants pomdp N _ Hn HN32 HN) in Et; [|lia].
    destruct Et as (E1 & E2 & E3 & E4 & E5 & _).
    apply IH in E; [|lia]. destruct E as (F2 & F3 & F4 & F5).
    repeat split; try lia.
    intros k Hk. rewrite F5 by exact Hk. apply E5. exact Hk.
  - injection E as <- <-. repeat split; auto; lia.
Qed.

(** X16: what [pomdp_expand_random_cpu] does to its outputs when it
    returns, for a model of [n >= 0] states and a quota that fits the index
    type together with its rows.  The status is Success, [*maxNonZeroValues] never
    decreases and, when it changes, is at most [n]; [Bnew] keeps its
    length and every cell from [numDesiredBeliefPoints * n] on is left as
    it was. *)
Theorem expand_random_outputs (rands : list Z) (pomdp : POMDP)
    (numDesiredBeliefPoints maxNonZeroValues : Z) (Bnew : list Q)
    (st : Status) (maxNonZeroValues' : Z) (Bnew' : list Q) :
  0 <= n pomdp -> numDesiredBeliefPoints < 4294967296 ->
  numDesiredBeliefPoints * n pomdp < 4294967296 ->
  pomdp_expand_random_cpu rands pomdp numDesiredBeliefPoints
    maxNonZeroValues Bnew = Some (st, maxNonZeroValues', Bnew') ->
  st = NOVA_SUCCESS
  /\ maxNonZeroValues <= maxNonZeroValues'
  /\ (maxNonZeroValues' = maxNonZeroValues \/ maxNonZeroValues' <= n pomdp)
  /\ length Bnew' = length Bnew
  /\ (forall k, numDesiredBeliefPoints * n pomdp <= k ->
                qrd Bnew' k = qrd Bnew k).
Proof.
  intros Hn HN32 HN. unfold pomdp_expand_random_cpu. cbv zeta.
  destruct (expand_trajectories _ _ _ _ _ 0 _ _ _) as [[mx1 Bnew1]|] eqn:E;
    [|discriminate].
  intros E'. injection E' as <- <- <-.
  apply (expand_trajectories_invariants pomdp _ _ _ Hn HN32 HN) in E; [|lia].
  split; [reflexivity|exact E].
Qed.

Lemma expand_random_outputs_witness :
  NOVA_SUCCESS = NOVA_SUCCESS
  /\ 0 <= 2
  /\ (2 = 0 \/ 2 <= n listen)
  /\ length [307200000 # 2048000000; 1740800000 # 2048000000; 9]%Q = length [9; 9; 9]%Q
  /\ (forall k, 1 * n listen <= k ->
                qrd [307200000 # 2048000000; 1740800000 # 2048000000; 9]%Q k = qrd [9; 9; 9]%Q k).
Proof.
  apply (expand_random_outputs [1500000000; 0; 1500000000] listen 1 0
           [9; 9; 9]%Q NOVA_SUCCESS 2 [307200000 # 2048000000; 1740800000 # 2048000000; 9]%Q).
  - vm_compute. discriminate.
  - vm_compute. reflexivity.
  - vm_compute. reflexivity.
  - vm_compute. reflexivity.
Defined.











(** ** The backup over the actions *)






(** ** What BTilde holds after an update *)



(** ** The back-projection of the pool *)

(** X24: the reduction of lines 83-116 returns the first vector of the
    pool whose back-projected value at the belief, under the action and
    the observation, is greatest, provided some vector has a value above
    [FLT_MIN].  When none has, and so whenever the pool is empty, it
    returns the index it was entered with: the choice made for the
    previous observation or, at observation 0, what the uninitialised
    [bestj] holds. *)
Theorem best_alpha_argmax_first_argmax (pomdp : POMDP) (bIndex : Z)
    (Gamma_ : list Q) (rGamma_ a o bestj : Z) :
  let res := best_alpha_argmax pomdp bIndex Gamma_ rGamma_ a o bestj in
  let value :=
    fun j => best_alpha_value pomdp bIndex Gamma_ a o j (range (rz pomdp)) 0 in
  ((forall j, 0 <= j < rGamma_ -> (value j <= FLT_MIN)%Q)
   /\ res = (bestj, FLT_MIN))
  \/ (0 <= fst res < rGamma_
      /\ snd res = value (fst res)
      /\ (FLT_MIN < snd res)%Q
      /\ (forall j, 0 <= j < rGamma_ -> (value j <= snd res)%Q)
      /\ (forall j, 0 <= j < fst res -> (value j < snd res)%Q)).
Proof.
  cbv zeta. unfold best_alpha_argmax.
  set (value := fun j =>
         best_alpha_value pomdp bIndex Gamma_ a o j (range (rz pomdp)) 0).
  set (F := fun (st : Z * Q) (j : Z) =>
         if Qltb (snd st) (value j) then (j, value j) else st).
  change (fold_left _ (range rGamma_) (bestj, FLT_MIN))
    with (fold_left F (range rGamma_) (bestj, FLT_MIN)).
  assert (Hgen : forall k : nat,
    let st := fold_left F (range (Z.of_nat k)) (bestj, FLT_MIN) in
    (forall j, 0 <= j < Z.of_nat k -> (value j <= snd st)%Q)
    /\ (st = (bestj, FLT_MIN)
        \/ (0 <= fst st < Z.of_nat k /\ snd st = value (fst st)
            /\ (FLT_MIN < snd st)%Q
            /\ (forall j, 0 <= j < fst st -> (value j < snd st)%Q)))).
  { induction k as [|k IH]; cbv zeta in *.
    - split; [intros; lia|left; reflexivity].
    - rewrite range_succ, fold_left_app. cbn [fold_left].
      destruct IH as (Hall & Hcase).
      set (st := fold_left F (range (Z.of_nat k)) (bestj, FLT_MIN)) in *.
      assert (EF : F st (Z.of_nat k)
                   = if Qltb (snd st) (value (Z.of_nat k))
                     then (Z.of_nat k, value (Z.of_nat k)) else st)
        by reflexivity.
      rewrite EF. clear EF.
      destruct (Qltb (snd st) (value (Z.of_nat k))) eqn:Hlt; cbn [fst snd].
      + apply Qltb_lt in Hlt. split.
        * intros j Hj. destruct (Z.eq_dec j (Z.of_nat k)) as [->|];
            [apply Qle_refl|].
          apply Qlt_le_weak. eapply Qle_lt_trans; [apply Hall; lia|exact Hlt].
        * right. split; [lia|]. split; [reflexivity|]. split.
          { destruct Hcase as [E|(_ & _ & Hb & _)].
            - rewrite E in Hlt. exact Hlt.
            - eapply Qlt_trans; eassumption. }
          intros j Hj. eapply Qle_lt_trans; [apply Hall; lia|exact Hlt].
      + apply Qltb_ge in Hlt. split.
        * intros j Hj. destruct (Z.eq_dec j (Z.of_nat k)) as [->|];
            [exact Hlt|apply Hall; lia].
        * destruct Hcase as [E|(H1 & H2)]; [left; exact E|right].
          split; [lia|exact H2]. }
  assert (Hc : (forall j, 0 <= j < rGamma_ ->
                  (value j <= snd (fold_left F (range rGamma_) (bestj, FLT_MIN)))%Q)
               /\ (fold_left F (range rGamma_) (bestj, FLT_MIN) = (bestj, FLT_MIN)
                   \/ (0 <= fst (fold_left F (range rGamma_) (bestj, FLT_MIN))
                         < rGamma_
                       /\ snd (fold_left F (range rGamma_) (bestj, FLT_MIN))
                          = value (fst (fold_left F (range rGamma_)
                                          (bestj, FLT_MIN)))
                       /\ (FLT_MIN < snd (fold_left F (range rGamma_)
                                            (bestj, FLT_MIN)))%Q
                       /\ (forall j,
                             0 <= j < fst (fold_left F (range rGamma_)
                                             (bestj, FLT_MIN)) ->
                             (value j < snd (fold_left F (range rGamma_)
                                               (bestj, FLT_MIN)))%Q)))).
  { destruct (Z.le_gt_cases 0 rGamma_) as [H|H].
    - specialize (Hgen (Z.to_nat rGamma_)). cbv zeta in Hgen.
      rewrite Z2Nat.id in Hgen by lia. exact Hgen.
    - unfold range. replace (Z.to_nat rGamma_) with 0%nat by lia.
      cbn [seq map fold_left]. split; [intros; lia|left; reflexivity]. }
  destruct Hc as (Hall & [E|(H1 & H2 & H3 & H4)]).
  - left. split; [|exact E]. intros j Hj. specialize (Hall j Hj).
    rewrite E in Hall. exact Hall.
  - right. repeat split; try assumption; lia.
Qed.



End Nova.
